(** * Churn-prediction pipeline ([transformer.py]): model and properties

    The development follows the layout of the script:

    - [Frame]: the table operations used by [prepare_data] and
      [prepare_data] itself, over exact rationals;
    - [Scaler]: the standardisation [StandardScaler] performs, over the
      reals;
    - [Net]: tensors, the layers [ChurnTransformer] is built from and its
      [forward];
    - [Train]: the epoch loop of [train_churn_model] over a store of
      parameter tensors that the state dict aliases;
    - [Predict]: [predict_churn];
    - [Features], [Dataset], [Build]: a column count on feature rows, the
      [ChurnDataset] class and the constructor of [ChurnTransformer] with
      the shapes it fixes.

    Floating point rounding is outside the model: numbers are rationals
    where the code only adds, counts and divides, and reals where it takes
    square roots or exponentials. *)

From Stdlib Require Import QArith Qfield Qreals Reals Lra.
From stdpp Require Import base gmap sets list strings pretty.

Local Open Scope Z_scope.

(** ** Python results

    A call either returns or raises; [result] is the error monad the
    models of the library calls live in. *)

Inductive exn :=
  | ValueError
  | RuntimeError
  | IndexError
  | AssertionError
  | ZeroDivisionError
  | AttributeError.

Inductive result (A : Type) :=
  | Ok (a : A)
  | Raise (e : exn).
Arguments Ok {A} a.
Arguments Raise {A} e.

#[global] Instance result_ret : MRet result := λ A a, Ok a.

#[global] Instance result_bind : MBind result := λ A B k r,
  match r with
  | Ok a => k a
  | Raise e => Raise e
  end.

#[global] Instance result_fmap : FMap result := λ A B f r,
  match r with
  | Ok a => Ok (f a)
  | Raise e => Raise e
  end.

Definition raises {A} (r : result A) : Prop := ∃ e, r = Raise e.

(** ** Tables and feature extraction *)

Module Frame.

(** One transaction. Cells hold present values; the missing-value markers
    of the table library are not part of this model. The numeric columns
    are float columns, their values taken as exact rationals; an integer
    column, whose sum wraps at 64 bits, is not part of it either. *)
Record row := Row {
  client_id : Z;
  revenue : Q;
  quantity : Q;
  loss : Q;
  product_id : Z;
  product_category : string;
  transaction_date : string
}.

Definition frame := list row.

(** [Series.unique()]: the distinct values in order of first appearance
    (a scan that remembers what it has seen). *)
Fixpoint unique_from {A} `{EqDecision A} (seen l : list A) : list A :=
  match l with
  | [] => []
  | x :: l' =>
      if decide (x ∈ seen) then unique_from seen l'
      else x :: unique_from (x :: seen) l'
  end.

Definition unique {A} `{EqDecision A} (l : list A) : list A := unique_from [] l.

(** [Series.sum()] of a float column in exact arithmetic, [len(...)] as a
    number, [Series.mean()]. *)
Definition series_sum (l : list Q) : Q := foldr Qplus 0%Q l.

Definition len {A} (l : list A) : Q := inject_Z (Z.of_nat (length l)).

Definition series_mean (l : list Q) : Q := (series_sum l / len l)%Q.

(** [Series.value_counts(normalize=True)]: every distinct value with the
    fraction of entries equal to it. (The library sorts the result by
    frequency; [get] does not observe the order.) *)
Definition occurrences {A} `{EqDecision A} (x : A) (l : list A) : nat :=
  length (filter (λ y, y = x) l).

Definition value_counts_normalized (l : list string) : list (string * Q) :=
  map (λ v, (v, (inject_Z (Z.of_nat (occurrences v l)) / len l)%Q)) (unique l).

(** [Series.get(key, default)]. *)
Fixpoint series_get (s : list (string * Q)) (key : string) (default : Q) : Q :=
  match s with
  | [] => default
  | (k, v) :: s' => if decide (k = key) then v else series_get s' key default
  end.

(** A Python [dict] with string keys: insertion ordered; assigning to a key
    that is present replaces its value in place, assigning to a new key
    appends. *)
Definition pydict := list (string * Q).

Fixpoint dict_set (k : string) (v : Q) (d : pydict) : pydict :=
  match d with
  | [] => [(k, v)]
  | (k', v') :: d' =>
      if decide (k' = k) then (k, v) :: d' else (k', v') :: dict_set k v d'
  end.

Definition dict_values (d : pydict) : list Q := map snd d.

Definition dict_keys (d : pydict) : list string := map fst d.

(** [df1[df1['client_id'] == client_id]] *)
Definition rows_of (c : Z) (df : frame) : frame :=
  filter (λ r, client_id r = c) df.

(** [set(df['client_id'].unique())] *)
Definition clients (df : frame) : gset Z := list_to_set (unique (map client_id df)).

(** The order in which [for client_id in clients_period1] visits the set.
    Python leaves it unspecified; [elements] is one such order, and no
    statement below depends on which. *)
Definition iteration_order (s : gset Z) : list Z := elements s.

(** [df1['product_category'].unique()] *)
Definition categories (df : frame) : list string := unique (map product_category df).

Definition ratio_key (cat : string) : string := ("category_ratio_" +:+ cat)%string.

(** The body of the loop of [prepare_data] up to
    [list(feature_dict.values())]. *)
Definition feature_dict (df1 : frame) (c : Z) : pydict :=
  let client_data := rows_of c df1 in
  let feature_dict : pydict :=
    [ ("total_revenue"%string, series_sum (map revenue client_data));
      ("avg_transaction_value"%string, series_mean (map revenue client_data));
      ("transaction_count"%string, len client_data);
      ("unique_products"%string, len (unique (map product_id client_data)));
      ("product_categories"%string, len (unique (map product_category client_data)));
      ("avg_quantity_per_transaction"%string, series_mean (map quantity client_data));
      ("total_loss"%string, series_sum (map loss client_data));
      ("days_active"%string, len (unique (map transaction_date client_data))) ] in
  let category_counts :=
    value_counts_normalized (map product_category client_data) in
  foldl (λ d cat, dict_set (ratio_key cat) (series_get category_counts cat 0%Q) d)
        feature_dict (categories df1).

Definition features_of (df1 : frame) (c : Z) : list Q :=
  dict_values (feature_dict df1 c).

Definition label_of (churners : gset Z) (c : Z) : Z :=
  if decide (c ∈ churners) then 1 else 0.

(** [prepare_data]: the feature matrix (a list of rows) and the labels. *)
Definition prepare_data (df1 df2 : frame) : list (list Q) * list Z :=
  let clients_period1 := clients df1 in
  let clients_period2 := clients df2 in
  let churners := clients_period1 ∖ clients_period2 in
  let visited := iteration_order clients_period1 in
  (map (features_of df1) visited, map (label_of churners) visited).

(** The client each output position belongs to. *)
Definition client_at (df1 : frame) (i : nat) : option Z :=
  iteration_order (clients df1) !! i.

(** The category-ratio columns of a feature row: what follows the eight
    aggregates. *)
Definition ratio_columns (r : list Q) : list Q := drop 8 r.

End Frame.

(** ** Column statistics over the reals *)

Module Num.
Local Open Scope R_scope.

Definition total (l : list R) : R := foldr Rplus 0 l.

(** [mean] and the population variance ([ddof = 0]) of a vector. *)
Definition mean (l : list R) : R := total l / INR (length l).

Definition variance (l : list R) : R := mean (map (λ x, (x - mean l) ^ 2) l).

Definition dot (u v : list R) : R := total (zip_with Rmult u v).

End Num.

(** ** [sklearn.preprocessing.StandardScaler] *)

Module Scaler.
Import Num.
Local Open Scope R_scope.

(** A nested Python list handed to the scaler. *)
Definition matrix := list (list R).

(** Input validation: the argument must convert to a two-dimensional array
    with at least one sample and one feature. [[]] converts to a
    one-dimensional array of length 0 and is refused, as are ragged
    rows. Returns the shape. *)
Definition check_array (X : matrix) : result (nat * nat) :=
  match X with
  | [] => Raise ValueError
  | r :: _ =>
      if forallb (λ r', Nat.eqb (length r') (length r)) X
      then if Nat.eqb (length r) 0 then Raise ValueError
           else Ok (length X, length r)
      else Raise ValueError
  end.

Definition column (j : nat) (X : matrix) : list R := map (λ r, nth j r 0) X.

(** [np.finfo(np.float64).eps] *)
Definition float_eps : R := / 2 ^ 52.

(** [_is_constant_feature(var, mean, n_samples)]: the library takes a
    column for constant not only at variance zero but whenever the
    variance does not exceed what rounding alone could produce. *)
Definition is_constant_feature (var mean : R) (n_samples : nat) : bool :=
  let upper_bound :=
    INR n_samples * float_eps * var + (INR n_samples * mean * float_eps) ^ 2 in
  if Rle_dec var upper_bound then true else false.

(** [_handle_zeros_in_scale(scale, constant_mask)]: the scale of a
    column under the mask is replaced by one. *)
Definition handle_zeros_in_scale (scale : R) (constant_mask : bool) : R :=
  if constant_mask then 1 else scale.

(** The scale [fit] stores for column [j] of [X]. *)
Definition column_scale (X : matrix) (j : nat) : R :=
  handle_zeros_in_scale
    (sqrt (variance (column j X)))
    (is_constant_feature (variance (column j X)) (mean (column j X)) (length X)).

(** The fitted state. *)
Record scaler := StandardScaler {
  n_features_in_ : nat;
  mean_ : list R;
  scale_ : list R
}.

Definition fit (X : matrix) : result scaler :=
  '(_, d) ← check_array X;
  Ok {| n_features_in_ := d;
        mean_ := map (λ j, mean (column j X)) (seq 0 d);
        scale_ := map (column_scale X) (seq 0 d) |}.

Definition standardize_row (s : scaler) (r : list R) : list R :=
  zip_with (λ x ms, (x - ms.1) / ms.2) r (zip (mean_ s) (scale_ s)).

(** [transform]: subtract the stored means, divide by the stored scales. *)
Definition transform (s : scaler) (X : matrix) : result matrix :=
  '(_, d) ← check_array X;
  if Nat.eqb d (n_features_in_ s) then Ok (map (standardize_row s) X)
  else Raise ValueError.

(** [fit_transform] is [fit(X).transform(X)]; the fitted state stays in the
    scaler object, which is returned with the matrix here. *)
Definition fit_transform (X : matrix) : result (scaler * matrix) :=
  s ← fit X;
  Y ← transform s X;
  Ok (s, Y).

(** The standardised matrix as the specification words it: every entry of
    [M] minus the mean of its column in [X], over the standard deviation
    of that column in [X]. *)
Definition standardized_by (X M : matrix) : matrix :=
  map (λ r, map (λ j, (nth j r 0 - mean (column j X)) / column_scale X j)
                (seq 0 (length r))) M.

End Scaler.

(** ** Tensors and the layers of [ChurnTransformer] *)

Module Net.
Import Num.
Local Open Scope R_scope.

(** Tensors of rank one to three, as nested lists. The batches the script
    builds are of rank two (batch × features). *)
Inductive tensor :=
  | T1 (v : list R)
  | T2 (m : list (list R))
  | T3 (c : list (list (list R))).

(** The random generator behind dropout, as the stream of its keep/drop
    draws ([true] keeps the element). Which draw goes to which element is
    the library's business; here every element has a draw of its own. *)
Definition rng := nat → bool.

(** A computation that may draw from the generator and may raise. *)
Definition gen (A : Type) : Type := rng → result (A * rng).

#[global] Instance gen_ret : MRet gen := λ A a g, Ok (a, g).

#[global] Instance gen_bind : MBind gen := λ A B k m g,
  match m g with
  | Ok (a, g') => k a g'
  | Raise e => Raise e
  end.

Definition lift {A} (r : result A) : gen A := λ g,
  match r with
  | Ok a => Ok (a, g)
  | Raise e => Raise e
  end.

(** [nn.Dropout(p)] on one element: the identity in evaluation mode; in
    training mode one draw decides between zero and the value scaled by
    [1 / (1 - p)]. Mapped over a tensor it draws in row-major order. *)
Definition dropout (p : R) (training : bool) (x : R) : gen R :=
  if training
  then λ g, Ok (if g 0%nat then x / (1 - p) else 0, λ i, g (S i))
  else mret x.

(** [nn.Linear]: [weight] has [out_features] rows of [in_features]
    entries. The last dimension of the input must be [in_features]. *)
Record Linear := {
  in_features : nat;
  out_features : nat;
  weight : list (list R);
  bias : list R
}.

Definition linear_vec (l : Linear) (x : list R) : result (list R) :=
  if Nat.eqb (length x) (in_features l)
  then Ok (zip_with (λ w b, dot w x + b) (weight l) (bias l))
  else Raise RuntimeError.

Definition linear (l : Linear) (x : tensor) : result tensor :=
  match x with
  | T1 v => T1 <$> linear_vec l v
  | T2 m => T2 <$> mapM (linear_vec l) m
  | T3 c => T3 <$> mapM (mapM (linear_vec l)) c
  end.

(** [nn.LayerNorm] over the last dimension. *)
Record LayerNorm := {
  normalized_shape : nat;
  eps : R;
  ln_weight : list R;
  ln_bias : list R
}.

Definition layer_norm (ln : LayerNorm) (x : list R) : result (list R) :=
  if Nat.eqb (length x) (normalized_shape ln)
  then Ok (zip_with (λ xi wb, (xi - mean x) / sqrt (variance x + eps ln) * wb.1 + wb.2)
                    x (zip (ln_weight ln) (ln_bias ln)))
  else Raise RuntimeError.

Definition softmax (v : list R) : list R :=
  map (λ x, exp x / total (map exp v)) v.

Definition relu (x : R) : R := Rmax 0 x.

(** [nn.MultiheadAttention] used as self-attention, on a batch of
    sequences (batch × sequence × embedding). *)
Record MultiheadAttention := {
  embed_dim : nat;
  num_heads : nat;
  attn_dropout : R;
  in_proj : Linear;
  out_proj : Linear
}.

Definition slice (start len : nat) (v : list R) : list R := take len (drop start v).

Definition head_dim (a : MultiheadAttention) : nat := (embed_dim a / num_heads a)%nat.

(** The attention weights of head [h] for one sequence: a softmax row per
    query position. *)
Definition attention_weights (a : MultiheadAttention) (h : nat)
    (q k : list (list R)) : list (list R) :=
  let hd := head_dim a in
  map (λ qs, softmax (map (λ kt, dot (slice (h * hd) hd qs) (slice (h * hd) hd kt)
                                 / sqrt (INR hd)) k)) q.

(** The values of head [h] mixed by one row of weights. *)
Definition attend (a : MultiheadAttention) (h : nat) (w : list R)
    (v : list (list R)) : list R :=
  let hd := head_dim a in
  map (λ j, dot w (map (λ vt, nth j (slice (h * hd) hd vt) 0) v)) (seq 0 hd).

Definition self_attention (a : MultiheadAttention) (training : bool)
    (x : list (list (list R))) : gen (list (list (list R))) :=
  let E := embed_dim a in
  let heads := seq 0 (num_heads a) in
  qkv ← lift (mapM (mapM (linear_vec (in_proj a))) x);
  let q := map (map (slice 0 E)) qkv in
  let k := map (map (slice E E)) qkv in
  let v := map (map (slice (2 * E) E)) qkv in
  let w := zip_with (λ qn kn, map (λ h, attention_weights a h qn kn) heads) q k in
  w ← mapM (mapM (mapM (mapM (dropout (attn_dropout a) training)))) w;
  let o := zip_with (λ wn vn,
             map (λ s, concat (map (λ h, attend a h (nth s (nth h wn []) []) vn) heads))
                 (seq 0 (length vn))) w v in
  lift (mapM (mapM (linear_vec (out_proj a))) o).

(** [nn.TransformerEncoderLayer] (post-norm, ReLU feed-forward). *)
Record TransformerEncoderLayer := {
  self_attn : MultiheadAttention;
  linear1 : Linear;
  linear2 : Linear;
  norm1 : LayerNorm;
  norm2 : LayerNorm;
  layer_dropout : R
}.

Definition add3 (x y : list (list (list R))) : list (list (list R)) :=
  zip_with (zip_with (zip_with Rplus)) x y.

Definition encoder_layer (l : TransformerEncoderLayer) (training : bool)
    (x : list (list (list R))) : gen (list (list (list R))) :=
  let dropped := mapM (mapM (mapM (dropout (layer_dropout l) training))) in
  a ← self_attention (self_attn l) training x;
  a ← dropped a;
  x ← lift (mapM (mapM (layer_norm (norm1 l))) (add3 x a));
  h ← lift (mapM (mapM (linear_vec (linear1 l))) x);
  h ← dropped (map (map (map relu)) h);
  f ← lift (mapM (mapM (linear_vec (linear2 l))) h);
  f ← dropped f;
  lift (mapM (mapM (layer_norm (norm2 l))) (add3 x f)).

(** The layers in turn, on a batch of sequences. *)
Fixpoint encoder (layers : list TransformerEncoderLayer) (training : bool)
    (x : list (list (list R))) : gen (list (list (list R))) :=
  match layers with
  | [] => mret x
  | l :: layers' => x ← encoder_layer l training x; encoder layers' training x
  end.

(** [nn.TransformerEncoder]. A rank-two input is taken as one unbatched
    sequence (sequence × embedding); a rank-one input is refused by the
    first attention layer. *)
Definition transformer_encoder (layers : list TransformerEncoderLayer)
    (training : bool) (x : tensor) : gen tensor :=
  match x with
  | T1 v => match layers with [] => mret (T1 v) | _ => lift (Raise AssertionError) end
  | T2 m => c ← encoder layers training [m]; mret (T2 (hd [] c))
  | T3 c => c ← encoder layers training c; mret (T3 c)
  end.

(** [x.mean(dim=1)]. *)
Definition mean_dim1 (x : tensor) : result tensor :=
  match x with
  | T1 _ => Raise IndexError
  | T2 m => Ok (T1 (map mean m))
  | T3 c => Ok (T2 (map (λ s, map (λ j, mean (map (λ r, nth j r 0) s))
                                  (seq 0 (length (hd [] s)))) c))
  end.

(** The module: its three submodules and the [training] flag that
    [model.train()] and [model.eval()] set. *)
Record ChurnTransformer := {
  embedding : Linear;
  transformer : list TransformerEncoderLayer;
  classifier : Linear;
  training : bool
}.

Definition set_training (b : bool) (net : ChurnTransformer) : ChurnTransformer :=
  {| embedding := embedding net; transformer := transformer net;
     classifier := classifier net; training := b |}.

Definition train := set_training true.
Definition eval := set_training false.

(** [ChurnTransformer.forward] *)
Definition forward (net : ChurnTransformer) (x : tensor) : gen tensor :=
  x ← lift (linear (embedding net) x);
  x ← transformer_encoder (transformer net) (training net) x;
  x ← lift (mean_dim1 x);
  lift (linear (classifier net) x).

(** The shape test the claims speak of: a batch of [n] rows of width [d]. *)
Definition is_batch (n d : nat) (x : tensor) : Prop :=
  match x with
  | T2 m => length m = n ∧ Forall (λ r, length r = d) m
  | _ => False
  end.

(** A computation that leaves the generator alone and whose outcome does
    not depend on it. *)
Definition generator_free {A} (m : gen A) : Prop :=
  ∃ r : result A, ∀ g, m g = (λ a, (a, g)) <$> r.

(** The shape of a batch of sequences: the length of each. *)
Definition lengths {A} (x : list (list A)) : list nat := map length x.

(** *** A small instance

    [ChurnTransformer(1, num_heads=1, dim_feedforward=2, num_layers=1)]
    with the default dropout rate, in training mode as a new module is. *)
Definition zeros (n : nat) : list R := replicate n 0.

Definition tiny_attention : MultiheadAttention :=
  {| embed_dim := 2; num_heads := 1; attn_dropout := 1 / 10;
     in_proj := {| in_features := 2; out_features := 6;
                   weight := replicate 6 (zeros 2); bias := zeros 6 |};
     out_proj := {| in_features := 2; out_features := 2;
                    weight := replicate 2 (zeros 2); bias := zeros 2 |} |}.

Definition tiny_layer : TransformerEncoderLayer :=
  {| self_attn := tiny_attention;
     linear1 := {| in_features := 2; out_features := 4;
                   weight := replicate 4 (zeros 2); bias := [1; 1; 1; 1] |};
     linear2 := {| in_features := 4; out_features := 2;
                   weight := [[1; 0; 0; 0]; [0; 0; 0; 0]]; bias := zeros 2 |};
     norm1 := {| normalized_shape := 2; eps := 1 / 100000;
                 ln_weight := [1; 1]; ln_bias := [0; 0] |};
     norm2 := {| normalized_shape := 2; eps := 1 / 100000;
                 ln_weight := [1; 0]; ln_bias := [0; 0] |};
     layer_dropout := 1 / 10 |}.

Definition tiny_net : ChurnTransformer :=
  {| embedding := {| in_features := 1; out_features := 2;
                     weight := [[0]; [0]]; bias := [0; 0] |};
     transformer := [tiny_layer];
     classifier := {| in_features := 2; out_features := 2;
                      weight := [[1; 0]; [0; 1]]; bias := [0; 0] |};
     training := true |}.

(** Two clients with one feature each: the one batch size on which
    [forward] of [tiny_net] returns. *)
Definition tiny_batch : tensor := T2 [[1]; [1]].

Definition three_rows : tensor := T2 [[1]; [1]; [1]].

(** Two clients again, with the sequence axis of length one. *)
Definition seq_batch : tensor := T3 [[[1]]; [[1]]].

(** A generator whose first [n] draws keep and whose later draws drop. *)
Definition draws_then_drop (n : nat) : rng := λ i, bool_decide (i < n)%nat.

Definition z22 : list (list (list R)) := [[[0; 0]; [0; 0]]].

Definition z212 : list (list (list R)) := [[[0; 0]]; [[0; 0]]].

(** What dropout at rate one tenth makes of [x] under draw [b]. *)
Definition kept (b : bool) (x : R) : R := if b then x / (1 - 1 / 10) else 0.

(** The first coordinate of the second layer norm of [tiny_layer] at the
    vector [[a; 0]]. *)
Definition normed (a : R) : R := a / 2 / sqrt (a * a / 4 + 1 / 100000).

End Net.

(** ** The training loop of [train_churn_model] *)

Module Train.
Import Num Net.
Local Open Scope R_scope.

(** Storage locations of tensors. A parameter, and the entry a state dict
    holds for it, are references to such a location. *)
Definition loc := nat.

(** A collated batch: the feature rows (rank two) and their labels (rank
    one). *)
Definition batch : Type := list (list R) * list Z.

(** [DataLoader(dataset, batch_size)]: consecutive groups of [batch_size]
    samples, the last one possibly shorter. *)
Fixpoint batches_from {A} (batch_size : nat) (current : list A) (dataset : list A)
    : list (list A) :=
  match dataset with
  | [] => match current with [] => [] | _ => [reverse current] end
  | x :: dataset' =>
      if Nat.eqb (S (length current)) batch_size
      then reverse (x :: current) :: batches_from batch_size [] dataset'
      else batches_from batch_size (x :: current) dataset'
  end.

(** [ChurnDataset(features, labels)]: the indexed pairs. *)
Definition ChurnDataset (features : list (list R)) (labels : list Z)
    : list (list R * Z) :=
  zip features labels.

Definition collate (samples : list (list R * Z)) : batch :=
  (map fst samples, map snd samples).

Definition data_loader (batch_size : nat) (dataset : list (list R * Z))
    : result (list batch) :=
  if Nat.eqb batch_size 0 then Raise ValueError
  else Ok (map collate (batches_from batch_size [] dataset)).

(** [nn.CrossEntropyLoss()]: the label it skips by default. *)
Definition ignore_index : Z := -100.

(** The loss of one row of logits: none for the label [ignore_index],
    which the loss leaves out; any other label must index the row. *)
Definition nll (logits : list R) (label : Z) : result (option R) :=
  if decide (label = ignore_index) then Ok None
  else if decide (0 ≤ label < Z.of_nat (length logits))%Z
  then Ok (Some (- ln (nth (Z.to_nat label) (softmax logits) 0)))
  else Raise IndexError.

(** [criterion(outputs, batch_labels)], the labels being those of a
    collated batch (a rank-one tensor): the mean of the row losses over
    the rows that are not left out. Logits of rank two need as many rows
    as there are labels. Logits of rank one are refused for such labels:
    the library reads them as one sample, whose target has rank zero, and
    reads an integer target of the logits' own shape as class
    probabilities; a target of rank zero does not arise in the script.
    When every row is left out the library's mean is 0/0, which the reals
    do not have; no statement below is about that case. *)
Definition criterion (outputs : tensor) (labels : list Z) : result R :=
  match outputs with
  | T2 m =>
      if Nat.eqb (length m) (length labels)
      then losses ← mapM (λ p, nll p.1 p.2) (zip m labels);
           Ok (mean (omap (λ loss : option R, loss) losses))
      else Raise ValueError
  | _ => Raise RuntimeError
  end.

(** [torch.max(outputs.data, 1)]: the index of the first largest entry of
    each row. *)
Fixpoint argmax_from (best : R) (best_index index : nat) (l : list R) : nat :=
  match l with
  | [] => best_index
  | x :: l' =>
      if Rlt_dec best x then argmax_from x index (S index) l'
      else argmax_from best best_index (S index) l'
  end.

Definition argmax (l : list R) : nat :=
  match l with
  | [] => 0%nat
  | x :: l' => argmax_from x 0 1 l'
  end.

Definition predicted (outputs : tensor) : result (list Z) :=
  match outputs with
  | T2 m => Ok (map (λ r, Z.of_nat (argmax r)) m)
  | _ => Raise IndexError
  end.

Definition count_equal (p l : list Z) : nat :=
  length (filter (λ x, x.1 = x.2) (zip p l)).

(** [a / b] on Python numbers. *)
Definition py_div (a : R) (b : nat) : result R :=
  if Nat.eqb b 0 then Raise ZeroDivisionError else Ok (a / INR b).

(** One line of progress output: epoch number shown, average training
    loss, average validation loss, validation accuracy. *)
Definition progress : Type := nat * R * R * R.

Section Loop.
(** The loop is written over what it asks of the framework: [T] is what a
    parameter tensor holds and [O] the state Adam keeps. *)
Context {T O : Type}.

(** [model(batch)] given the values its parameters hold and its mode. *)
Variable apply_model : gmap string T → bool → tensor → gen tensor.

(** [loss.backward(); optimizer.step()]: the values the step writes into
    the parameters (it may depend on the draws of the forward pass). *)
Variable backward_step : O → gmap string T → batch → rng → O * gmap string T.

(** [model.named_parameters()]: where each parameter is stored. *)
Variable parameters : gmap string loc.

Record state := {
  store : gmap loc T;
  generator : rng;
  optimizer : O;
  printed : list progress
}.

(** The values the parameters hold now. *)
Definition read (h : gmap loc T) : gmap string T :=
  omap (λ l, h !! l) parameters.

(** Writing new values into the parameter tensors, in place. *)
Definition write (values : gmap string T) (h : gmap loc T) : gmap loc T :=
  map_fold (λ name l h, match values !! name with
                        | Some v => <[l := v]> h
                        | None => h
                        end) h parameters.

(** [model.state_dict()]: every parameter name with the parameter's own
    tensor; the entries share storage with the parameters. *)
Definition state_dict : gmap string loc := parameters.

(** [dict.copy()]: a new dict holding the same objects. *)
Definition dict_copy (d : gmap string loc) : gmap string loc := d.

(** [model.load_state_dict(d)]: copy, parameter by parameter, the
    contents of the tensor [d] holds under the parameter's name. *)
Definition copy_from (d : gmap string loc) (h : result (gmap loc T))
    (entry : string * loc) : result (gmap loc T) :=
  h ← h;
  match d !! entry.1 with
  | None => Raise RuntimeError
  | Some src =>
      match h !! src with
      | None => Raise RuntimeError
      | Some v => Ok (<[entry.2 := v]> h)
      end
  end.

Definition load_state_dict (d : option (gmap string loc)) (h : gmap loc T)
    : result (gmap loc T) :=
  match d with
  | None => Raise AttributeError
  | Some d => foldl (copy_from d) (Ok h) (map_to_list parameters)
  end.

(** One pass over the training batches; returns the summed loss. *)
Fixpoint train_pass (batches : list batch) (train_loss : R) (s : state)
    : result (R * state) :=
  match batches with
  | [] => Ok (train_loss, s)
  | b :: batches' =>
      let values := read (store s) in
      '(outputs, g) ← apply_model values true (T2 b.1) (generator s);
      loss ← criterion outputs b.2;
      let '(o, values') := backward_step (optimizer s) values b (generator s) in
      train_pass batches' (train_loss + loss)
        {| store := write values' (store s); generator := g;
           optimizer := o; printed := printed s |}
  end.

(** One pass over the validation batches; returns the summed loss, the
    number of correct predictions and the number of labels seen. *)
Fixpoint val_pass (batches : list batch) (acc : R * nat * nat) (s : state)
    : result (R * nat * nat * state) :=
  match batches with
  | [] => Ok (acc, s)
  | b :: batches' =>
      let '(val_loss, correct, total) := acc in
      '(outputs, g) ← apply_model (read (store s)) false (T2 b.1) (generator s);
      loss ← criterion outputs b.2;
      p ← predicted outputs;
      val_pass batches'
        (val_loss + loss, (correct + count_equal p b.2)%nat, (total + length b.2)%nat)
        {| store := store s; generator := g;
           optimizer := optimizer s; printed := printed s |}
  end.

(** [val_loss < best_val_loss], where [None] is [float('inf')]. *)
Definition improves (val_loss : R) (best_val_loss : option R) : bool :=
  match best_val_loss with
  | None => true
  | Some b => if Rlt_dec val_loss b then true else false
  end.

Variable train_loader : nat → list batch.
Variable val_loader : list batch.

(** The body of [for epoch in range(epochs)]. *)
Definition epoch_body (epoch : nat)
    (best : option R * option (gmap string loc)) (s : state)
    : result (option R * option (gmap string loc) * state) :=
  '(train_loss, s) ← train_pass (train_loader epoch) 0 s;
  '(val_loss, correct, total, s) ← val_pass val_loader (0, 0%nat, 0%nat) s;
  val_accuracy ← py_div (100 * INR correct) total;
  let best :=
    if improves val_loss best.1
    then (Some val_loss, Some (dict_copy state_dict))
    else best in
  if Nat.eqb (epoch mod 10) 0
  then
    avg_train ← py_div train_loss (length (train_loader epoch));
    avg_val ← py_div val_loss (length val_loader);
    Ok (best, {| store := store s; generator := generator s;
                 optimizer := optimizer s;
                 printed := printed s ++ [(S epoch, avg_train, avg_val, val_accuracy)] |})
  else Ok (best, s).

Fixpoint epochs_from (remaining epoch : nat)
    (best : option R * option (gmap string loc)) (s : state)
    : result (option R * option (gmap string loc) * state) :=
  match remaining with
  | 0%nat => Ok (best, s)
  | S remaining' =>
      '(best, s) ← epoch_body epoch best s;
      epochs_from remaining' (S epoch) best s
  end.

(** The training loop and the reload of the best state dict. The model
    object returned is the parameters together with the store. *)
Definition training_loop (epochs : nat) (s : state) : result state :=
  '(best, s) ← epochs_from epochs 0 (None, None) s;
  h ← load_state_dict best.2 (store s);
  Ok {| store := h; generator := generator s;
        optimizer := optimizer s; printed := printed s |}.

(** Every parameter has storage. *)
Definition allocated (h : gmap loc T) : Prop :=
  ∀ name l, parameters !! name = Some l → is_Some (h !! l).

(** The snapshot is never anything but the module's own state dict. *)
Definition own_snapshot (best : option R * option (gmap string loc)) : Prop :=
  best.2 = None ∨ best.2 = Some (dict_copy state_dict).

(** A module whose call on a batch never yields a batch of logit rows. *)
Definition never_a_batch : Prop :=
  ∀ values mode m g y g',
    apply_model values mode (T2 m) g = Ok (y, g') → ∃ v, y = T1 v.

(** The validation loss an epoch measures. *)
Definition epoch_val_loss (epoch : nat) (s : state) : result R :=
  '(_, s) ← train_pass (train_loader epoch) 0 s;
  '(val_loss, _, _, _) ← val_pass val_loader (0, 0%nat, 0%nat) s;
  Ok val_loss.

End Loop.

(** *** The loop on [ChurnTransformer] *)

(** The parameters of the module under their state-dict names. *)
Definition linear_parameters (prefix : string) (l : Linear) : list (string * tensor) :=
  [(prefix +:+ ".weight", T2 (weight l)); (prefix +:+ ".bias", T1 (bias l))].

Definition norm_parameters (prefix : string) (n : LayerNorm) : list (string * tensor) :=
  [(prefix +:+ ".weight", T1 (ln_weight n)); (prefix +:+ ".bias", T1 (ln_bias n))].

Definition attention_parameters (prefix : string) (a : MultiheadAttention)
    : list (string * tensor) :=
  [(prefix +:+ ".in_proj_weight", T2 (weight (in_proj a)));
   (prefix +:+ ".in_proj_bias", T1 (bias (in_proj a)))]
  ++ linear_parameters (prefix +:+ ".out_proj") (out_proj a).

Definition layer_parameters (prefix : string) (l : TransformerEncoderLayer)
    : list (string * tensor) :=
  attention_parameters (prefix +:+ ".self_attn") (self_attn l)
  ++ linear_parameters (prefix +:+ ".linear1") (linear1 l)
  ++ linear_parameters (prefix +:+ ".linear2") (linear2 l)
  ++ norm_parameters (prefix +:+ ".norm1") (norm1 l)
  ++ norm_parameters (prefix +:+ ".norm2") (norm2 l).

Definition layer_prefix (i : nat) : string := "transformer.layers." +:+ pretty i.

Definition named_parameters (net : ChurnTransformer) : list (string * tensor) :=
  linear_parameters "embedding" (embedding net)
  ++ concat (imap (λ i l, layer_parameters (layer_prefix i) l) (transformer net))
  ++ linear_parameters "classifier" (classifier net).

(** The module with the values its parameters hold now. *)
Definition matrix_at (values : gmap string tensor) (name : string)
    : result (list (list R)) :=
  match values !! name with
  | Some (T2 m) => Ok m
  | _ => Raise RuntimeError
  end.

Definition vector_at (values : gmap string tensor) (name : string) : result (list R) :=
  match values !! name with
  | Some (T1 v) => Ok v
  | _ => Raise RuntimeError
  end.

Definition linear_at (values : gmap string tensor) (wname bname : string) (l : Linear)
    : result Linear :=
  w ← matrix_at values wname;
  b ← vector_at values bname;
  Ok {| in_features := in_features l; out_features := out_features l;
        weight := w; bias := b |}.

Definition norm_at (values : gmap string tensor) (prefix : string) (n : LayerNorm)
    : result LayerNorm :=
  w ← vector_at values (prefix +:+ ".weight");
  b ← vector_at values (prefix +:+ ".bias");
  Ok {| normalized_shape := normalized_shape n; eps := eps n;
        ln_weight := w; ln_bias := b |}.

Definition layer_at (values : gmap string tensor) (prefix : string)
    (l : TransformerEncoderLayer) : result TransformerEncoderLayer :=
  let a := self_attn l in
  ip ← linear_at values (prefix +:+ ".self_attn.in_proj_weight")
                        (prefix +:+ ".self_attn.in_proj_bias") (in_proj a);
  op ← linear_at values (prefix +:+ ".self_attn.out_proj.weight")
                        (prefix +:+ ".self_attn.out_proj.bias") (out_proj a);
  l1 ← linear_at values (prefix +:+ ".linear1.weight") (prefix +:+ ".linear1.bias")
                 (linear1 l);
  l2 ← linear_at values (prefix +:+ ".linear2.weight") (prefix +:+ ".linear2.bias")
                 (linear2 l);
  n1 ← norm_at values (prefix +:+ ".norm1") (norm1 l);
  n2 ← norm_at values (prefix +:+ ".norm2") (norm2 l);
  Ok {| self_attn := {| embed_dim := embed_dim a; num_heads := num_heads a;
                        attn_dropout := attn_dropout a;
                        in_proj := ip; out_proj := op |};
        linear1 := l1; linear2 := l2; norm1 := n1; norm2 := n2;
        layer_dropout := layer_dropout l |}.

Definition with_values (net : ChurnTransformer) (values : gmap string tensor)
    : result ChurnTransformer :=
  e ← linear_at values "embedding.weight" "embedding.bias" (embedding net);
  ls ← mapM (λ il, layer_at values (layer_prefix il.1) il.2)
            (imap (λ i l, (i, l)) (transformer net));
  c ← linear_at values "classifier.weight" "classifier.bias" (classifier net);
  Ok {| embedding := e; transformer := ls; classifier := c; training := training net |}.

(** [model(batch)] for the module whose parameters hold [values]. *)
Definition apply_net (net : ChurnTransformer) (values : gmap string tensor)
    (mode : bool) (x : tensor) : gen tensor :=
  net ← lift (with_values net values);
  forward (set_training mode net) x.

(** Fresh storage for the parameters of a new module. *)
Definition allocate (named : list (string * tensor)) : gmap string loc * gmap loc tensor :=
  (list_to_map (imap (λ i p, (p.1, i)) named),
   list_to_map (imap (λ i p, (i, p.2)) named)).

Section Pipeline.
Import Frame Scaler.
Context {O : Type}.

(** What the script takes from the libraries as given: the split, the
    per-epoch shuffle of the loader, the initial parameters of a new
    module, and Adam. *)
Variable train_test_split :
  matrix → list Z → result (matrix * matrix * list Z * list Z).
Variable shuffle : nat → list (list R * Z) → list (list R * Z).
Variable new_model : nat → ChurnTransformer.
Variable adam : R → O.
Variable backward_step : O → gmap string tensor → batch → rng → O * gmap string tensor.
Variable seed : rng.

Definition train_churn_model (df1 df2 : frame) (epochs batch_size : nat)
    (learning_rate : R) : result (ChurnTransformer * scaler) :=
  let '(features, labels) := prepare_data df1 df2 in
  let features := map (map Q2R) features in
  '(scaler, features_scaled) ← fit_transform features;
  '(X_train, X_val, y_train, y_val) ← train_test_split features_scaled labels;
  let train_dataset := ChurnDataset X_train y_train in
  let val_dataset := ChurnDataset X_val y_val in
  _ ← data_loader batch_size train_dataset;
  val_loader ← data_loader batch_size val_dataset;
  let train_loader epoch :=
    map collate (batches_from batch_size [] (shuffle epoch train_dataset)) in
  let input_dim := length (hd [] features) in
  let model := new_model input_dim in
  let '(parameters, h) := allocate (named_parameters model) in
  s ← training_loop (apply_net model) backward_step parameters
         train_loader val_loader epochs
         {| store := h; generator := seed;
            optimizer := adam learning_rate; printed := [] |};
  model ← with_values model (read parameters (store s));
  Ok (eval model, scaler).
End Pipeline.

End Train.

(** ** [predict_churn] *)

Module Predict.
Import Num Net Scaler.
Local Open Scope R_scope.

(** [torch.softmax(outputs, dim=1)] *)
Definition softmax_dim1 (x : tensor) : result tensor :=
  match x with
  | T1 _ => Raise IndexError
  | T2 m => Ok (T2 (map softmax m))
  | T3 c =>
      Ok (T3 (map (λ s, map (λ r,
                imap (λ j xj, exp xj / total (map (λ r', exp (nth j r' 0)) s)) r) s) c))
  end.

(** [probabilities[:, 1]] *)
Definition select_1 (x : tensor) : result tensor :=
  match x with
  | T1 _ => Raise IndexError
  | T2 m =>
      if forallb (λ r, Nat.leb 2 (length r)) m then Ok (T1 (map (λ r, nth 1 r 0) m))
      else Raise IndexError
  | T3 c =>
      if forallb (λ s, Nat.leb 2 (length s)) c then Ok (T2 (map (λ s, nth 1 s []) c))
      else Raise IndexError
  end.

(** [predict_churn(model, scaler, client_data)]. The call [model.eval()]
    changes the module it is given, so the module is returned along with
    the outcome. The feature list is the empty list the source assigns;
    nothing is appended to it. *)
Definition predict_churn {A} (model : ChurnTransformer) (scaler : scaler)
    (client_data : A) (g : rng) : ChurnTransformer * result tensor :=
  let model := eval model in
  let features : matrix := [] in
  (model,
   features_scaled ← transform scaler features;
   let features_tensor := T2 features_scaled in
   '(outputs, _) ← forward model features_tensor g;
   probabilities ← softmax_dim1 outputs;
   select_1 probabilities).

End Predict.

(** ** Sample inputs *)

Module Examples.
Import Frame.

Definition txn (c : Z) (cat : string) (day : string) : row :=
  {| client_id := c; revenue := 30 # 1; quantity := 2 # 1; loss := 1 # 2;
     product_id := 7; product_category := cat; transaction_date := day |}.

(** Three clients in the first period, two of them back in the second. *)
Definition period1 : frame :=
  [txn 1 "tools" "d1"; txn 2 "paint" "d1"; txn 1 "paint" "d2";
   txn 3 "tools" "d2"; txn 1 "tools" "d3"].

Definition period2 : frame :=
  [txn 2 "tools" "d8"; txn 3 "wood" "d8"; txn 4 "tools" "d9"].

(** A two-column matrix and the state [fit] derives from it. *)
Definition X0 : Scaler.matrix := [[0; 1]; [2; 5]]%R.

Definition fitted0 : Scaler.scaler :=
  {| Scaler.n_features_in_ := 2;
     Scaler.mean_ := map (λ j, Num.mean (Scaler.column j X0)) (seq 0 2);
     Scaler.scale_ := map (Scaler.column_scale X0) (seq 0 2) |}.

(** One column whose two entries differ in the last place of a float: its
    variance is not zero, and the scaler takes it for constant. *)
Definition X1 : Scaler.matrix := [[1]; [1 + Scaler.float_eps]]%R.

(** An optimiser step that leaves the parameters as they are. *)
Definition no_update (o : unit) (values : gmap string Net.tensor) (b : Train.batch)
    (g : Net.rng) : unit * gmap string Net.tensor :=
  (o, values).

End Examples.

(** ** Reading a feature row *)

Module Features.
Import Frame.

(** The number of category-ratio columns of a row that are not zero. *)
Definition nonzero_ratios (r : list Q) : nat :=
  length (filter (λ q, Qeq_bool q 0 = false) (ratio_columns r)).

End Features.

(** ** [ChurnDataset] as a class

    The dataset object with its three methods. [Train.ChurnDataset] is the
    list of samples a loader reads out of it. *)

Module Dataset.

(** The two tensors the constructor stores. *)
Record ChurnDataset := {
  features : list (list R);
  labels : list Z
}.

(** [torch.FloatTensor(features)] on a nested list: the rows must have one
    length. *)
Definition FloatTensor (features : list (list R)) : result (list (list R)) :=
  match features with
  | [] => Ok []
  | r :: _ =>
      if forallb (λ r', Nat.eqb (length r') (length r)) features then Ok features
      else Raise ValueError
  end.

(** [torch.LongTensor(labels)]: every label must fit a signed 64-bit
    integer. *)
Definition LongTensor (labels : list Z) : result (list Z) :=
  if forallb (λ l, (- 2 ^ 63 <=? l) && (l <? 2 ^ 63))%Z labels then Ok labels
  else Raise RuntimeError.

Definition __init__ (features : list (list R)) (labels : list Z) : result ChurnDataset :=
  features ← FloatTensor features;
  labels ← LongTensor labels;
  Ok {| features := features; labels := labels |}.

Definition __len__ (self : ChurnDataset) : nat := length (labels self).

(** [t[idx]] along the first dimension of a tensor: a negative index
    counts from the end, an index outside [-len, len) raises. *)
Definition index {A} (t : list A) (idx : Z) : result A :=
  let n := Z.of_nat (length t) in
  let i := if decide (idx < 0) then idx + n else idx in
  if decide (0 ≤ i < n) then
    match t !! Z.to_nat i with
    | Some x => Ok x
    | None => Raise IndexError
    end
  else Raise IndexError.

Definition __getitem__ (self : ChurnDataset) (idx : Z) : result (list R * Z) :=
  f ← index (features self) idx;
  l ← index (labels self) idx;
  Ok (f, l).

(** What a loader fetches: [dataset[i]] for [i] in [range(len(dataset))]. *)
Definition samples (self : ChurnDataset) : result (list (list R * Z)) :=
  mapM (λ i, __getitem__ self (Z.of_nat i)) (seq 0 (__len__ self)).

End Dataset.

(** ** [ChurnTransformer.__init__]

    The constructor composes library modules; what it fixes is their
    sizes, and that every encoder layer starts as a copy of one layer. *)

Module Build.
Local Open Scope R_scope.

Section init.
(** The values the initialisers give the parameters, by parameter name
    and position. Nothing below depends on them. *)
Variable initial : string → nat → nat → R.

Definition matrix_of (name : string) (rows cols : nat) : list (list R) :=
  map (λ i, map (λ j, initial name i j) (seq 0 cols)) (seq 0 rows).

Definition vector_of (name : string) (n : nat) : list R :=
  map (λ i, initial name i 0%nat) (seq 0 n).

(** [nn.Linear(in_features, out_features)] *)
Definition new_linear (name : string) (in_features out_features : nat) : Net.Linear :=
  {| Net.in_features := in_features; Net.out_features := out_features;
     Net.weight := matrix_of (name +:+ ".weight") out_features in_features;
     Net.bias := vector_of (name +:+ ".bias") out_features |}.

(** [nn.LayerNorm(d)], with the default [eps]. *)
Definition new_norm (name : string) (d : nat) : Net.LayerNorm :=
  {| Net.normalized_shape := d; Net.eps := 1 / 100000;
     Net.ln_weight := vector_of (name +:+ ".weight") d;
     Net.ln_bias := vector_of (name +:+ ".bias") d |}.

(** [nn.MultiheadAttention(embed_dim, num_heads, dropout=dropout)]: both
    sizes must be positive and the heads must divide the embedding. *)
Definition new_attention (name : string) (embed_dim num_heads : nat) (dropout : R)
    : result Net.MultiheadAttention :=
  if Nat.eqb embed_dim 0 || Nat.eqb num_heads 0 then Raise ValueError
  else if negb (Nat.eqb (embed_dim / num_heads * num_heads) embed_dim)
  then Raise AssertionError
  else Ok {| Net.embed_dim := embed_dim; Net.num_heads := num_heads;
             Net.attn_dropout := dropout;
             Net.in_proj :=
               {| Net.in_features := embed_dim; Net.out_features := 3 * embed_dim;
                  Net.weight := matrix_of (name +:+ ".in_proj_weight")
                                          (3 * embed_dim) embed_dim;
                  Net.bias := vector_of (name +:+ ".in_proj_bias") (3 * embed_dim) |};
             Net.out_proj := new_linear (name +:+ ".out_proj") embed_dim embed_dim |}.

(** [nn.Dropout(p)] refuses a rate outside [0, 1]. *)
Definition new_dropout (p : R) : result R :=
  if Rlt_dec p 0 then Raise ValueError
  else if Rlt_dec 1 p then Raise ValueError
  else Ok p.

(** [nn.TransformerEncoderLayer(d_model, nhead, dim_feedforward, dropout,
    batch_first=True)] *)
Definition new_encoder_layer (name : string) (d_model nhead dim_feedforward : nat)
    (dropout : R) : result Net.TransformerEncoderLayer :=
  self_attn ← new_attention (name +:+ ".self_attn") d_model nhead dropout;
  let linear1 := new_linear (name +:+ ".linear1") d_model dim_feedforward in
  dropout ← new_dropout dropout;
  let linear2 := new_linear (name +:+ ".linear2") dim_feedforward d_model in
  let norm1 := new_norm (name +:+ ".norm1") d_model in
  let norm2 := new_norm (name +:+ ".norm2") d_model in
  Ok {| Net.self_attn := self_attn; Net.linear1 := linear1; Net.linear2 := linear2;
        Net.norm1 := norm1; Net.norm2 := norm2; Net.layer_dropout := dropout |}.

(** [ChurnTransformer(input_dim, num_heads, dim_feedforward, num_layers,
    dropout)]. [nn.TransformerEncoder] holds [num_layers] deep copies of
    the layer it is given; a new module is in training mode. *)
Definition __init__ (input_dim num_heads dim_feedforward num_layers : nat)
    (dropout : R) : result Net.ChurnTransformer :=
  let embedding := new_linear "embedding" input_dim dim_feedforward in
  encoder_layer ← new_encoder_layer "encoder_layer" dim_feedforward num_heads
                     (dim_feedforward * 2) dropout;
  let transformer := replicate num_layers encoder_layer in
  let classifier := new_linear "classifier" dim_feedforward 2 in
  Ok {| Net.embedding := embedding; Net.transformer := transformer;
        Net.classifier := classifier; Net.training := true |}.

End init.

(** *** Shapes *)

(** The lengths of the rows of a batch of sequences, and those of an
    [n × s × d] tensor. *)
Definition dims (x : list (list (list R))) : list (list nat) := map (map length) x.

Definition cube (n s d : nat) : list (list nat) := replicate n (replicate s d).

(** Parameters of the sizes their modules declare. *)
Definition linear_ok (l : Net.Linear) : Prop :=
  length (Net.weight l) = Net.out_features l ∧ length (Net.bias l) = Net.out_features l.

Definition norm_ok (n : Net.LayerNorm) : Prop :=
  length (Net.ln_weight n) = Net.normalized_shape n ∧
  length (Net.ln_bias n) = Net.normalized_shape n.

Definition attention_ok (a : Net.MultiheadAttention) : Prop :=
  (Net.head_dim a * Net.num_heads a = Net.embed_dim a)%nat ∧
  linear_ok (Net.in_proj a) ∧
  Net.in_features (Net.in_proj a) = Net.embed_dim a ∧
  Net.out_features (Net.in_proj a) = (3 * Net.embed_dim a)%nat ∧
  linear_ok (Net.out_proj a) ∧
  Net.in_features (Net.out_proj a) = Net.embed_dim a ∧
  Net.out_features (Net.out_proj a) = Net.embed_dim a.

Definition layer_ok (d : nat) (l : Net.TransformerEncoderLayer) : Prop :=
  attention_ok (Net.self_attn l) ∧ Net.embed_dim (Net.self_attn l) = d ∧
  linear_ok (Net.linear1 l) ∧ Net.in_features (Net.linear1 l) = d ∧
  linear_ok (Net.linear2 l) ∧
  Net.in_features (Net.linear2 l) = Net.out_features (Net.linear1 l) ∧
  Net.out_features (Net.linear2 l) = d ∧
  norm_ok (Net.norm1 l) ∧ Net.normalized_shape (Net.norm1 l) = d ∧
  norm_ok (Net.norm2 l) ∧ Net.normalized_shape (Net.norm2 l) = d.

Definition well_shaped (net : Net.ChurnTransformer) : Prop :=
  linear_ok (Net.embedding net) ∧
  Forall (layer_ok (Net.out_features (Net.embedding net))) (Net.transformer net) ∧
  linear_ok (Net.classifier net) ∧
  Net.in_features (Net.classifier net) = Net.out_features (Net.embedding net).

End Build.


(** * Properties *)

(** ** [prepare_data] *)

Module FrameFacts.
Import Frame.

Section unique_facts.
Context {A : Type} `{EqDecision A}.
Implicit Types (l seen : list A).

Lemma elem_of_unique_from seen l x :
  x ∈ unique_from seen l ↔ x ∈ l ∧ x ∉ seen.
Proof.
  revert seen. induction l as [|y l IH]; intros seen; simpl.
  - set_solver.
  - destruct (decide (y ∈ seen)) as [Hy|Hy].
    + rewrite IH. set_solver.
    + rewrite elem_of_cons, IH. 
      destruct (decide (x = y)) as [->|Hne]; set_solver.
Qed.

Lemma NoDup_unique_from seen l : NoDup (unique_from seen l).
Proof.
  revert seen. induction l as [|y l IH]; intros seen; simpl.
  - constructor.
  - destruct (decide (y ∈ seen)); [apply IH|].
    constructor; [|apply IH].
    rewrite elem_of_unique_from. set_solver.
Qed.

Lemma elem_of_unique l x : x ∈ unique l ↔ x ∈ l.
Proof. unfold unique. rewrite elem_of_unique_from. set_solver. Qed.

Lemma NoDup_unique l : NoDup (unique l).
Proof. apply NoDup_unique_from. Qed.
End unique_facts.

Lemma elem_of_clients df c : c ∈ clients df ↔ c ∈ map client_id df.
Proof. unfold clients. rewrite elem_of_list_to_set. apply elem_of_unique. Qed.

Lemma elem_of_iteration_order s c : c ∈ iteration_order s ↔ c ∈ s.
Proof. apply elem_of_elements. Qed.

Lemma label_of_churners df1 df2 c :
  c ∈ clients df1 →
  label_of (clients df1 ∖ clients df2) c =
    if decide (c ∈ map client_id df2) then 0 else 1.
Proof.
  intros Hc. unfold label_of.
  destruct (decide (c ∈ map client_id df2)) as [H2|H2];
    rewrite <- elem_of_clients in H2; case_decide; set_solver.
Qed.


Lemma prepare_data_rows (df1 df2 : frame) :
  let X := (prepare_data df1 df2).1 in
  let y := (prepare_data df1 df2).2 in
  let visited := iteration_order (clients df1) in
  length X = length visited ∧ length y = length visited ∧
  NoDup visited ∧
  (∀ c, c ∈ visited ↔ c ∈ map client_id df1) ∧
  (∀ i c, client_at df1 i = Some c →
     X !! i = Some (features_of df1 c) ∧
     y !! i = Some (if decide (c ∈ map client_id df2) then 0 else 1)).
Proof.
  cbn zeta. unfold prepare_data, client_at; cbn [fst snd].
  rewrite !length_map. split_and!; try done.
  - apply NoDup_elements.
  - intros c. rewrite elem_of_iteration_order. apply elem_of_clients.
  - intros i c Hi. rewrite !list_lookup_fmap, Hi. cbn. split; [done|].
    f_equal. apply label_of_churners.
    apply elem_of_iteration_order. by eapply list_elem_of_lookup_2.
Qed.

(** C1. [prepare_data] labels exactly the clients of period 1. A client of
    period 1 that is missing from period 2 has a row, built from its own
    period-1 transactions, and the label 1 at the same position; a client
    of both periods has a row and the label 0; every position of the
    output belongs to a client of period 1, and no client has two. *)
Theorem prepare_data_labels_period1 (df1 df2 : frame) :
  let X := (prepare_data df1 df2).1 in
  let y := (prepare_data df1 df2).2 in
  length X = length y ∧
  (∀ c, c ∈ map client_id df1 → c ∉ map client_id df2 →
     ∃ i, client_at df1 i = Some c ∧
          X !! i = Some (features_of df1 c) ∧ y !! i = Some 1) ∧
  (∀ c, c ∈ map client_id df1 → c ∈ map client_id df2 →
     ∃ i, client_at df1 i = Some c ∧
          X !! i = Some (features_of df1 c) ∧ y !! i = Some 0) ∧
  (∀ i, (i < length y)%nat →
     ∃ c, client_at df1 i = Some c ∧ c ∈ map client_id df1 ∧
          X !! i = Some (features_of df1 c)) ∧
  (∀ i j c, client_at df1 i = Some c → client_at df1 j = Some c → i = j).
Proof.
  destruct (prepare_data_rows df1 df2) as (HX & Hy & Hnd & Hin & Hrow).
  cbn zeta. split_and!.
  - congruence.
  - intros c Hc1 Hc2. apply Hin, list_elem_of_lookup in Hc1 as [i Hi].
    exists i. destruct (Hrow i c Hi) as [HXi Hyi].
    by rewrite decide_False in Hyi.
  - intros c Hc1 Hc2. apply Hin, list_elem_of_lookup in Hc1 as [i Hi].
    exists i. destruct (Hrow i c Hi) as [HXi Hyi].
    by rewrite decide_True in Hyi.
  - intros i Hi. rewrite Hy in Hi. apply lookup_lt_is_Some_2 in Hi as [c Hc].
    exists c. split_and!; [done| |by apply Hrow].
    apply Hin. by eapply list_elem_of_lookup_2.
  - intros i j c Hi Hj. by eapply NoDup_lookup.
Qed.

Lemma dict_set_fresh k v d : k ∉ dict_keys d → dict_set k v d = d ++ [(k, v)].
Proof.
  induction d as [|[k' v'] d IH]; simpl; [done|].
  rewrite not_elem_of_cons. intros [Hne Hk].
  destruct (decide (k' = k)); [congruence|]. by rewrite IH.
Qed.

Lemma ratio_key_inj c1 c2 : ratio_key c1 = ratio_key c2 → c1 = c2.
Proof. cbv [ratio_key String.append]. congruence. Qed.

Lemma foldl_dict_set_fresh (val : string → Q) (cats : list string) (d : pydict) :
  NoDup cats →
  (∀ cat, cat ∈ cats → ratio_key cat ∉ dict_keys d) →
  foldl (λ d cat, dict_set (ratio_key cat) (val cat) d) d cats
  = d ++ map (λ cat, (ratio_key cat, val cat)) cats.
Proof.
  revert d. induction cats as [|cat cats IH]; intros d Hnd Hfresh; simpl.
  - by rewrite app_nil_r.
  - apply NoDup_cons in Hnd as [Hcat Hnd].
    rewrite dict_set_fresh by (apply Hfresh; left).
    rewrite IH; [by rewrite <- app_assoc|done|].
    intros c Hc. unfold dict_keys. rewrite map_app, elem_of_app. cbn.
    intros [Hin|Hin%list_elem_of_singleton%ratio_key_inj].
    + eapply Hfresh; [by right|done].
    + congruence.
Qed.

Lemma feature_dict_eq df1 c :
  ∃ base : pydict, length base = 8%nat ∧
    feature_dict df1 c = base ++
      map (λ cat, (ratio_key cat,
                    series_get (value_counts_normalized
                                  (map product_category (rows_of c df1))) cat 0%Q))
          (categories df1).
Proof.
  unfold feature_dict. eexists. split; [|apply foldl_dict_set_fresh].
  - reflexivity.
  - apply NoDup_unique.
  - intros cat _. cbv [dict_keys ratio_key String.append map fst].
    rewrite !not_elem_of_cons. split_and!; try discriminate. apply not_elem_of_nil.
Qed.

Lemma features_of_eq df1 c :
  ∃ base : list Q, length base = 8%nat ∧
    features_of df1 c = base ++
      map (λ cat, series_get (value_counts_normalized
                                (map product_category (rows_of c df1))) cat 0%Q)
          (categories df1).
Proof.
  destruct (feature_dict_eq df1 c) as (base & Hlen & Heq).
  exists (dict_values base). unfold features_of, dict_values in *.
  rewrite Heq, map_app, length_map, map_map. done.
Qed.

Lemma size_categories df :
  length (categories df) = size (list_to_set (map product_category df) : gset string).
Proof.
  unfold categories.
  rewrite <- (size_list_to_set (C:=gset string)) by apply NoDup_unique.
  f_equal. apply set_eq. intros x. by rewrite !elem_of_list_to_set, elem_of_unique.
Qed.

(** C4. Every row of the feature matrix of one call has the same width:
    eight plus the number of distinct product categories of period 1. *)
Theorem prepare_data_width (df1 df2 : frame) (r : list Q) :
  r ∈ (prepare_data df1 df2).1 →
  length r = (8 + size (list_to_set (map product_category df1) : gset string))%nat.
Proof.
  unfold prepare_data; cbn [fst]. intros (c & -> & _)%list_elem_of_fmap.
  destruct (features_of_eq df1 c) as (base & Hlen & ->).
  by rewrite length_app, length_map, Hlen, size_categories.
Qed.

Lemma series_get_map (f : string → Q) (keys : list string) (key : string) :
  series_get (map (λ v, (v, f v)) keys) key 0%Q
  = if decide (key ∈ keys) then f key else 0%Q.
Proof.
  induction keys as [|k keys IH]; simpl; [done|].
  destruct (decide (k = key)) as [->|Hne].
  - rewrite decide_True; [done|left].
  - rewrite IH. destruct (decide (key ∈ keys)).
    + rewrite decide_True; [done|by right].
    + rewrite decide_False; [done|]. rewrite elem_of_cons. naive_solver.
Qed.

Lemma occurrences_absent {A} `{EqDecision A} (x : A) l : x ∉ l → occurrences x l = 0%nat.
Proof.
  unfold occurrences. induction l as [|y l IH]; [done|].
  rewrite not_elem_of_cons. intros [Hne Hl].
  rewrite filter_cons, decide_False by done. auto.
Qed.

Lemma occurrences_cons {A} `{EqDecision A} (x y : A) l :
  occurrences x (y :: l) = ((if decide (y = x) then 1 else 0) + occurrences x l)%nat.
Proof. unfold occurrences. rewrite filter_cons. by case_decide. Qed.

Lemma sum_indicator {A} `{EqDecision A} (y : A) (cats : list A) :
  NoDup cats → y ∈ cats →
  sum_list_with (λ c, if decide (y = c) then 1 else 0)%nat cats = 1%nat.
Proof.
  induction 1 as [|c cats Hc Hnd IH]; [by intros ?%elem_of_nil|].
  rewrite elem_of_cons. simpl. intros Hy. case_decide as Heq.
  - subst c. f_equal. clear IH Hy. induction cats as [|c cats IH]; [done|].
    simpl. apply not_elem_of_cons in Hc as [? ?]. apply NoDup_cons in Hnd as [? ?].
    rewrite decide_False by done. auto.
  - rewrite IH; [done|]. naive_solver.
Qed.

Lemma sum_occurrences {A} `{EqDecision A} (cats l : list A) :
  NoDup cats → l ⊆ cats →
  sum_list_with (λ c, occurrences c l) cats = length l.
Proof.
  intros Hnd. induction l as [|y l IH]; intros Hsub.
  - clear. induction cats; simpl; [done|]. auto.
  - transitivity (sum_list_with (λ c, if decide (y = c) then 1 else 0) cats
                  + sum_list_with (λ c, occurrences c l) cats)%nat.
    + clear. induction cats as [|c cats IHc]; simpl; [done|].
      rewrite occurrences_cons, IHc. lia.
    + rewrite sum_indicator, IH by set_solver. done.
Qed.

Lemma series_sum_ratios {A} (f : A → nat) (n : Q) (cats : list A) :
  (series_sum (map (λ c, inject_Z (Z.of_nat (f c)) / n) cats)
   == inject_Z (Z.of_nat (sum_list_with f cats)) / n)%Q.
Proof.
  induction cats as [|c cats IH]; simpl.
  - unfold Qdiv. ring.
  - rewrite IH, Nat2Z.inj_add, inject_Z_plus. unfold Qdiv. ring.
Qed.

Lemma series_sum_ext {A} (f g : A → Q) (l : list A) :
  (∀ x, x ∈ l → (f x == g x)%Q) →
  (series_sum (map f l) == series_sum (map g l))%Q.
Proof.
  induction l as [|x l IH]; intros Hfg; simpl; [reflexivity|].
  rewrite Hfg by left. rewrite IH; [reflexivity|]. intros; apply Hfg. by right.
Qed.

Lemma rows_of_nonempty c df : c ∈ map client_id df → rows_of c df ≠ [].
Proof.
  intros (r & -> & Hr)%list_elem_of_fmap Hnil.
  assert (r ∈ rows_of (client_id r) df) as Hin by (by apply list_elem_of_filter).
  rewrite Hnil in Hin. by apply elem_of_nil in Hin.
Qed.

Lemma rows_of_categories c df :
  map product_category (rows_of c df) ⊆ categories df.
Proof.
  intros cat (r & -> & Hr)%list_elem_of_fmap.
  apply elem_of_unique, list_elem_of_fmap. exists r. split; [done|].
  by apply list_elem_of_filter in Hr as [_ ?].
Qed.

Lemma len_nonzero {A} (l : list A) : l ≠ [] → ¬ (len l == 0)%Q.
Proof.
  intros Hl. unfold len, Qeq. destruct l; [done|]. simpl. lia.
Qed.

Lemma occurrences_of_category (c : Z) (cat : string) (df : frame) :
  occurrences cat (map product_category (rows_of c df))
  = length (filter (λ t, client_id t = c ∧ product_category t = cat) df).
Proof.
  unfold occurrences, rows_of. induction df as [|t df IH]; [done|].
  rewrite (filter_cons (λ t, client_id t = c ∧ product_category t = cat)).
  rewrite (filter_cons (λ r, client_id r = c)).
  destruct (decide (client_id t = c ∧ product_category t = cat)) as [[Hc Hcat]|Hnot].
  - rewrite (decide_True (P:=client_id t = c)) by done. cbn [map].
    rewrite filter_cons, (decide_True (P:=product_category t = cat)) by done.
    cbn [length]. f_equal. exact IH.
  - destruct (decide (client_id t = c)) as [Hc|Hc]; [|exact IH].
    cbn [map]. rewrite filter_cons, (decide_False (P:=product_category t = cat)) by tauto.
    exact IH.
Qed.

Lemma length_rows_of (c : Z) (df : frame) :
  length (map product_category (rows_of c df))
  = length (filter (λ t, client_id t = c) df).
Proof. unfold rows_of. by rewrite length_map. Qed.

(** C5. In the row of a client [c] there is one category-ratio column for
    every category of period 1, in the order of first appearance. The
    column of a category holds the number of period-1 transactions of [c]
    in that category over the number of all period-1 transactions of
    [c]: so the column of a category in which [c] has no transaction holds
    exactly 0, and the columns of the row sum to one (as rationals). The
    transactions of a client are told by the table itself: the rows of
    [df1] whose [client_id] is [c]. *)
Theorem prepare_data_category_ratios (df1 df2 : frame) (i : nat) (c : Z) (r : list Q) :
  client_at df1 i = Some c →
  (prepare_data df1 df2).1 !! i = Some r →
  let own cat := length (filter (λ t, client_id t = c ∧ product_category t = cat) df1) in
  let all := length (filter (λ t, client_id t = c) df1) in
  (foldr Qplus 0 (ratio_columns r) == 1)%Q ∧
  length (ratio_columns r) = length (categories df1) ∧
  NoDup (categories df1) ∧
  (∀ cat, cat ∈ categories df1 ↔ ∃ t, t ∈ df1 ∧ product_category t = cat) ∧
  (1 ≤ all)%nat ∧
  (∀ j cat, categories df1 !! j = Some cat →
     ∃ q, ratio_columns r !! j = Some q ∧
       (q == inject_Z (Z.of_nat (own cat)) / inject_Z (Z.of_nat all))%Q) ∧
  (∀ j cat, categories df1 !! j = Some cat →
     (∀ t, t ∈ df1 → client_id t = c → product_category t ≠ cat) →
     ratio_columns r !! j = Some 0%Q).
Proof.
  unfold prepare_data, client_at; cbn [fst]. intros Hi.
  rewrite list_lookup_fmap, Hi. cbn. intros [= <-].
  destruct (features_of_eq df1 c) as (base & Hlen & ->).
  unfold ratio_columns. rewrite drop_app_length' by done.
  set (l := map product_category (rows_of c df1)).
  assert (l ≠ []) as Hl.
  { unfold l. intros Hnil%fmap_nil_inv. revert Hnil. apply rows_of_nonempty.
    apply elem_of_clients, elem_of_iteration_order.
    by eapply list_elem_of_lookup_2. }
  assert (∀ cat, cat ∈ l ↔ ∃ t, t ∈ df1 ∧ client_id t = c ∧ product_category t = cat)
    as Hin_l.
  { intros cat. unfold l, rows_of. rewrite list_elem_of_fmap. split.
    - intros (t & -> & [? ?]%list_elem_of_filter). eauto.
    - intros (t & ? & ? & <-). exists t. split; [done|]. by apply list_elem_of_filter. }
  split_and!.
  - fold (series_sum (map (λ cat, series_get (value_counts_normalized l) cat 0%Q)
                          (categories df1))).
    rewrite (series_sum_ext _ (λ cat, inject_Z (Z.of_nat (occurrences cat l)) / len l)%Q).
    + rewrite series_sum_ratios, sum_occurrences.
      * apply Qmult_inv_r. fold (len l). by apply len_nonzero.
      * apply NoDup_unique.
      * apply rows_of_categories.
    + intros cat _. unfold value_counts_normalized. rewrite series_get_map.
      case_decide as Hin.
      * reflexivity.
      * rewrite elem_of_unique in Hin. rewrite occurrences_absent by done.
        unfold Qdiv. simpl. ring.
  - by rewrite length_map.
  - apply NoDup_unique.
  - intros cat. unfold categories. rewrite elem_of_unique, list_elem_of_fmap.
    split; intros (t & ? & ?); eauto.
  - rewrite <- length_rows_of. fold l. destruct l; [done|simpl; lia].
  - intros j cat Hj. eexists. split.
    + rewrite list_lookup_fmap, Hj. reflexivity.
    + rewrite <- occurrences_of_category, <- length_rows_of. fold l.
      unfold value_counts_normalized. rewrite series_get_map.
      case_decide as Hin; [reflexivity|].
      rewrite elem_of_unique in Hin. rewrite occurrences_absent by done.
      unfold Qdiv. simpl. ring.
  - intros j cat Hj Hcat. rewrite list_lookup_fmap, Hj. cbn. f_equal.
    unfold value_counts_normalized. rewrite series_get_map.
    rewrite decide_False; [done|]. rewrite elem_of_unique, Hin_l.
    intros (t & ? & ? & ?). by eapply Hcat.
Qed.

(** Client 1 of the sample tables is missing from the second period: it
    has a row and the label 1. *)
Lemma prepare_data_labels_period1_witness :
  (1 ∈ map client_id Examples.period1) ∧
  (1 ∉ map client_id Examples.period2) ∧
  (∃ i, client_at Examples.period1 i = Some 1 ∧
        (prepare_data Examples.period1 Examples.period2).1 !! i
          = Some (features_of Examples.period1 1) ∧
        (prepare_data Examples.period1 Examples.period2).2 !! i = Some 1).
Proof.
  assert (1 ∈ map client_id Examples.period1) as H1 by (vm_compute; left).
  assert (1 ∉ map client_id Examples.period2) as H2.
  { apply (bool_decide_unpack _). vm_compute. exact I. }
  split_and!; [exact H1|exact H2|].
  exact (proj1 (proj2 (prepare_data_labels_period1 Examples.period1 Examples.period2))
               1 H1 H2).
Defined.

(** The row of client 1 in the sample tables is ten wide: two categories
    are seen in period 1. *)
Lemma prepare_data_width_witness :
  features_of Examples.period1 1 ∈ (prepare_data Examples.period1 Examples.period2).1 ∧
  length (features_of Examples.period1 1) = 10%nat.
Proof.
  assert (features_of Examples.period1 1
          ∈ (prepare_data Examples.period1 Examples.period2).1) as Hin.
  { apply list_elem_of_lookup_2 with 2%nat. vm_compute. reflexivity. }
  split; [exact Hin|].
  rewrite (prepare_data_width Examples.period1 Examples.period2 _ Hin).
  vm_compute. reflexivity.
Defined.

(** Client 1 of the sample tables: two of its three transactions are in
    the first category, one in the second. *)
Lemma prepare_data_category_ratios_witness :
  client_at Examples.period1 2 = Some 1 ∧
  (prepare_data Examples.period1 Examples.period2).1 !! 2%nat
    = Some (features_of Examples.period1 1) ∧
  (foldr Qplus 0 (ratio_columns (features_of Examples.period1 1)) == 1)%Q ∧
  ∃ q, ratio_columns (features_of Examples.period1 1) !! 0%nat = Some q ∧
    (q == 2 # 3)%Q.
Proof.
  assert (client_at Examples.period1 2 = Some 1) as Hc by (vm_compute; reflexivity).
  assert ((prepare_data Examples.period1 Examples.period2).1 !! 2%nat
          = Some (features_of Examples.period1 1)) as Hr by (vm_compute; reflexivity).
  split_and!; [exact Hc|exact Hr|..].
  - exact (proj1 (prepare_data_category_ratios _ _ _ _ _ Hc Hr)).
  - destruct (proj1 (proj2 (proj2 (proj2 (proj2 (proj2
                (prepare_data_category_ratios _ _ _ _ _ Hc Hr))))))
                0%nat "tools"%string eq_refl) as (q & Hq & Hval).
    exists q. split; [exact Hq|]. rewrite Hval. vm_compute. reflexivity.
Defined.

End FrameFacts.

(** ** [StandardScaler] *)

Module ScalerFacts.
Import Num Scaler.
Local Open Scope R_scope.

Lemma check_array_ok X n d :
  check_array X = Ok (n, d) →
  n = length X ∧ X ≠ [] ∧ d ≠ 0%nat ∧ Forall (λ r, length r = d) X.
Proof.
  unfold check_array. destruct X as [|r X']; [done|].
  destruct (forallb _ _) eqn:Hall; [|done].
  destruct (Nat.eqb_spec (length r) 0); [done|]. intros [= <- <-].
  split_and!; try done.
  apply Forall_forall. intros r' Hr'.
  rewrite forallb_forall in Hall. apply Nat.eqb_eq, Hall. by apply list_elem_of_In.
Qed.

Lemma nth_standardize_row s r j :
  (j < length r)%nat → length (mean_ s) = length r → length (scale_ s) = length r →
  nth j (standardize_row s r) 0 = (nth j r 0 - nth j (mean_ s) 0) / nth j (scale_ s) 0.
Proof.
  unfold standardize_row. revert j r. generalize (scale_ s).
  induction (mean_ s) as [|m ms IH]; intros [|sc scs] j [|x r] Hj Hm Hs;
    simpl in *; try lia.
  destruct j; [done|]. apply IH; lia.
Qed.

Lemma length_standardize_row s r :
  length (mean_ s) = length r → length (scale_ s) = length r →
  length (standardize_row s r) = length r.
Proof.
  intros Hm Hs. unfold standardize_row. rewrite length_zip_with, length_zip. lia.
Qed.

Lemma total_affine (m s : R) (l : list R) :
  total (map (λ x, (x - m) / s) l) = (total l - INR (length l) * m) / s.
Proof.
  induction l as [|x l IH].
  - simpl. unfold Rdiv. ring.
  - cbn [map total foldr length]. fold (total (map (λ x, (x - m) / s) l)).
    fold (total l). rewrite IH, S_INR. unfold Rdiv. ring.
Qed.

Lemma INR_length_nonzero {A} (l : list A) : l ≠ [] → INR (length l) ≠ 0.
Proof. intros Hl. apply not_0_INR. by destruct l. Qed.

Lemma mean_centered (s : R) (l : list R) :
  l ≠ [] → mean (map (λ x, (x - mean l) / s) l) = 0.
Proof.
  intros Hl. unfold mean at 1. rewrite total_affine, length_map.
  unfold mean. apply INR_length_nonzero in Hl.
  replace (total l - INR (length l) * (total l / INR (length l))) with 0
    by (field; done).
  unfold Rdiv. ring.
Qed.

Lemma total_scale (c : R) (l : list R) :
  total (map (λ x, c * x) l) = c * total l.
Proof.
  induction l as [|x l IH]; simpl; [ring|].
  fold (total (map (λ x, c * x) l)). fold (total l). rewrite IH. ring.
Qed.

Lemma variance_standardized (s : R) (l : list R) :
  l ≠ [] → s ≠ 0 →
  variance (map (λ x, (x - mean l) / s) l) = variance l / (s * s).
Proof.
  intros Hl Hs. unfold variance at 1. rewrite mean_centered by done.
  rewrite map_map. unfold variance, mean at 1 3. rewrite !length_map.
  rewrite (map_ext _ (λ x, / (s * s) * (x - mean l) ^ 2)).
  - rewrite <- (map_map (λ x, (x - mean l) ^ 2) (λ y, / (s * s) * y)), total_scale.
    apply INR_length_nonzero in Hl. field. done.
  - intros x. field. done.
Qed.

Lemma total_nonneg (l : list R) : Forall (λ x, 0 <= x) l → 0 <= total l.
Proof. induction 1; simpl; [lra|]. fold (total l). lra. Qed.

Lemma variance_nonneg (l : list R) : 0 <= variance l.
Proof.
  unfold variance, mean. rewrite length_map.
  destruct l as [|x l].
  - simpl. unfold Rdiv. rewrite Rinv_0. lra.
  - apply Rmult_le_pos.
    + apply total_nonneg, Forall_map, Forall_forall. intros y _. apply pow2_ge_0.
    + apply Rlt_le, Rinv_0_lt_compat, lt_0_INR. simpl. lia.
Qed.

Lemma fit_ok X s :
  fit X = Ok s →
  ∃ n, check_array X = Ok (n, n_features_in_ s) ∧
    mean_ s = map (λ j, mean (column j X)) (seq 0 (n_features_in_ s)) ∧
    scale_ s = map (column_scale X) (seq 0 (n_features_in_ s)).
Proof.
  unfold fit. destruct (check_array X) as [[n d]|e] eqn:Hc; [|done].
  cbn. intros [= <-]. by exists n.
Qed.

Lemma column_standardized s X j :
  Forall (λ r, length r = n_features_in_ s) X →
  length (mean_ s) = n_features_in_ s → length (scale_ s) = n_features_in_ s →
  (j < n_features_in_ s)%nat →
  column j (map (standardize_row s) X)
  = map (λ x, (x - nth j (mean_ s) 0) / nth j (scale_ s) 0) (column j X).
Proof.
  intros Hall Hm Hs Hj. unfold column. rewrite !map_map.
  apply map_ext_Forall. eapply Forall_impl; [exact Hall|].
  intros r Hr. cbn in *. apply nth_standardize_row; lia.
Qed.

Lemma nth_map_seq (f : nat → R) (d j : nat) :
  (j < d)%nat → nth j (map f (seq 0 d)) 0 = f j.
Proof.
  intros Hj. rewrite (nth_indep _ 0 (f 0%nat)).
  - rewrite map_nth. by rewrite seq_nth.
  - rewrite length_map, length_seq. exact Hj.
Qed.

Lemma float_eps_bounds : 0 < float_eps < 1 / 1000.
Proof.
  unfold float_eps. assert (1000 < 2 ^ 52) as Hbig by (cbn [pow]; lra).
  split.
  - apply Rinv_0_lt_compat. lra.
  - replace (1 / 1000) with (/ 1000) by lra. apply Rinv_lt_contravar; [|done].
    apply Rmult_lt_0_compat; lra.
Qed.

Lemma constant_at_variance_zero (mean : R) (n_samples : nat) :
  is_constant_feature 0 mean n_samples = true.
Proof.
  unfold is_constant_feature. cbn zeta. destruct (Rle_dec _ _) as [|Hn]; [done|].
  exfalso. apply Hn. rewrite Rmult_0_r, Rplus_0_l. apply pow2_ge_0.
Qed.

Lemma not_constant_variance (var mean : R) (n_samples : nat) :
  is_constant_feature var mean n_samples = false → var ≠ 0.
Proof. intros Hnc ->. by rewrite constant_at_variance_zero in Hnc. Qed.

(** C6, as amended. When the scaler takes no column of the fitting matrix
    for constant, [transform] of the fitted scaler on that same matrix
    returns a matrix whose every column has mean 0 and standard deviation
    1 (over the reals). Nonzero variance alone is not enough: see
    [near_constant_column_is_not_standardized]. *)
Theorem transform_of_fitting_matrix_standardizes (X : matrix) (s : scaler) :
  fit X = Ok s →
  (∀ j, (j < n_features_in_ s)%nat →
     is_constant_feature (variance (column j X)) (mean (column j X)) (length X)
     = false) →
  ∃ Y, transform s X = Ok Y ∧
    ∀ j, (j < n_features_in_ s)%nat →
      mean (column j Y) = 0 ∧ sqrt (variance (column j Y)) = 1.
Proof.
  intros (n & Hc & Hmean & Hscale)%fit_ok Hvar.
  exists (map (standardize_row s) X). split.
  { unfold transform. rewrite Hc. cbn. by rewrite Nat.eqb_refl. }
  apply check_array_ok in Hc as (_ & HX & Hd & Hall).
  intros j Hj.
  rewrite column_standardized; try done;
    [|by rewrite Hmean, length_map, length_seq
     |by rewrite Hscale, length_map, length_seq].
  rewrite Hmean, Hscale, !nth_map_seq by done.
  assert (column j X ≠ []) as Hcol by (unfold column; by destruct X).
  assert (0 < variance (column j X)) as Hpos.
  { pose proof (variance_nonneg (column j X)).
    pose proof (not_constant_variance _ _ _ (Hvar j Hj)). lra. }
  assert (0 < sqrt (variance (column j X))) as Hsq by (by apply sqrt_lt_R0).
  unfold column_scale, handle_zeros_in_scale. rewrite (Hvar j Hj).
  split; [by apply mean_centered|].
  rewrite variance_standardized, sqrt_sqrt by (done || lra).
  unfold Rdiv. rewrite Rinv_r by lra. apply sqrt_1.
Qed.

Lemma standardize_row_entries X s r :
  mean_ s = map (λ j, mean (column j X)) (seq 0 (n_features_in_ s)) →
  scale_ s = map (column_scale X) (seq 0 (n_features_in_ s)) →
  length r = n_features_in_ s →
  standardize_row s r
  = map (λ j, (nth j r 0 - mean (column j X)) / column_scale X j)
        (seq 0 (length r)).
Proof.
  intros Hmean Hscale Hr.
  assert (length (mean_ s) = length r) as Hlm
    by (by rewrite Hmean, length_map, length_seq).
  assert (length (scale_ s) = length r) as Hls
    by (by rewrite Hscale, length_map, length_seq).
  apply (nth_ext _ _ 0 0).
  - by rewrite length_standardize_row, length_map, length_seq.
  - rewrite length_standardize_row by done. intros j Hj.
    rewrite nth_standardize_row by done.
    rewrite (nth_map_seq _ (length r)) by done.
    rewrite Hmean, Hscale, !nth_map_seq by lia. done.
Qed.

(** C8. [transform] of a scaler fitted on [X] standardises any matrix [M]
    of the fitted width with the column means and deviations of [X], not
    those of [M]; on [X] itself it returns the matrix [fit_transform]
    returned. *)
Theorem transform_reuses_fitted_statistics (X : matrix) (s : scaler) :
  fit X = Ok s →
  (∀ M n, check_array M = Ok (n, n_features_in_ s) →
          transform s M = Ok (standardized_by X M)) ∧
  (∃ Y, fit_transform X = Ok (s, Y) ∧ transform s X = Ok Y).
Proof.
  intros Hfit. pose proof Hfit as (n & Hc & Hmean & Hscale)%fit_ok.
  assert (∀ M k, check_array M = Ok (k, n_features_in_ s) →
                 transform s M = Ok (standardized_by X M)) as Htr.
  { intros M k HM. unfold transform. rewrite HM. cbn. rewrite Nat.eqb_refl.
    f_equal. apply check_array_ok in HM as (_ & _ & _ & Hall).
    unfold standardized_by. apply map_ext_Forall.
    eapply Forall_impl; [exact Hall|]. intros r Hr. cbn in *.
    by apply standardize_row_entries. }
  split; [exact Htr|].
  exists (standardized_by X X). split; [|by eapply Htr].
  unfold fit_transform. rewrite Hfit. cbn. by erewrite Htr.
Qed.

Lemma mean_pair (a b : R) : mean [a; b] = (a + b) / 2.
Proof. unfold mean. cbn. lra. Qed.

Lemma variance_pair (a b : R) : variance [a; b] = (a - b) ^ 2 / 4.
Proof. unfold variance. cbn [map]. rewrite !mean_pair. field. Qed.

Lemma not_constant_X0 (j : nat) :
  (j < 2)%nat →
  is_constant_feature (variance (column j Examples.X0)) (mean (column j Examples.X0))
    (length Examples.X0) = false.
Proof.
  intros Hj. pose proof float_eps_bounds as He.
  unfold is_constant_feature. cbn zeta.
  destruct (Rle_dec _ _) as [Hle|]; [exfalso|done]. revert Hle.
  destruct j as [|[|j]]; [| |lia];
    cbn [column Examples.X0 map nth length]; rewrite variance_pair, mean_pair;
    simpl INR; intros Hle; nra.
Qed.

Lemma transform_of_fitting_matrix_standardizes_witness :
  fit Examples.X0 = Ok Examples.fitted0 ∧
  (∀ j, (j < 2)%nat →
     is_constant_feature (variance (column j Examples.X0))
       (mean (column j Examples.X0)) (length Examples.X0) = false) ∧
  ∃ Y, transform Examples.fitted0 Examples.X0 = Ok Y ∧
    ∀ j, (j < 2)%nat → mean (column j Y) = 0 ∧ sqrt (variance (column j Y)) = 1.
Proof.
  assert (fit Examples.X0 = Ok Examples.fitted0) as Hfit by reflexivity.
  split_and!; [exact Hfit|exact not_constant_X0|].
  exact (transform_of_fitting_matrix_standardizes _ _ Hfit not_constant_X0).
Defined.

(** C6: counterexample. The one column of [X1] has variance
    [float_eps ^ 2 / 4], which is not zero; the scaler takes the column
    for constant and stores the scale 1, so the transformed column keeps
    that variance and its standard deviation is not 1. *)
Lemma near_constant_column_is_not_standardized :
  variance (column 0 Examples.X1) ≠ 0 ∧
  ∃ s Y, fit Examples.X1 = Ok s ∧ transform s Examples.X1 = Ok Y ∧
    scale_ s = [1] ∧
    variance (column 0 Y) = variance (column 0 Examples.X1) ∧
    sqrt (variance (column 0 Y)) ≠ 1.
Proof.
  pose proof float_eps_bounds as He.
  assert (variance (column 0 Examples.X1) = float_eps ^ 2 / 4) as Hvar.
  { cbn [column Examples.X1 map nth]. rewrite variance_pair. field. }
  assert (column_scale Examples.X1 0 = 1) as Hscale.
  { unfold column_scale, handle_zeros_in_scale. rewrite Hvar.
    cbn [column Examples.X1 map nth length]. rewrite mean_pair.
    unfold is_constant_feature. cbn zeta. simpl INR.
    destruct (Rle_dec _ _) as [|Hn]; [done|]. exfalso. apply Hn. nra. }
  split; [rewrite Hvar; nra|].
  set (s := {| n_features_in_ := 1;
               mean_ := [mean (column 0 Examples.X1)];
               scale_ := [column_scale Examples.X1 0] |}).
  exists s, (map (standardize_row s) Examples.X1).
  split; [reflexivity|]. split; [reflexivity|].
  unfold s. cbn [scale_]. rewrite Hscale. split; [done|].
  assert (variance (column 0 (map (standardize_row
            {| n_features_in_ := 1;
               mean_ := [mean (column 0 Examples.X1)];
               scale_ := [1] |}) Examples.X1)) = float_eps ^ 2 / 4) as HvarY.
  { unfold standardize_row.
    cbn [column Examples.X1 map nth zip_with zip mean_ scale_ fst snd].
    rewrite variance_pair, mean_pair. field. }
  rewrite HvarY, Hvar. split; [done|].
  intros Hsqrt. assert (float_eps ^ 2 / 4 = 1) as Hone.
  { rewrite <- (sqrt_def (float_eps ^ 2 / 4)) by nra. rewrite Hsqrt. ring. }
  nra.
Qed.

Lemma transform_reuses_fitted_statistics_witness :
  fit Examples.X0 = Ok Examples.fitted0 ∧
  check_array Examples.X0 = Ok (2%nat, 2%nat) ∧
  transform Examples.fitted0 Examples.X0
    = Ok (standardized_by Examples.X0 Examples.X0).
Proof.
  assert (fit Examples.X0 = Ok Examples.fitted0) as Hfit by reflexivity.
  split_and!; [exact Hfit|reflexivity|].
  exact (proj1 (transform_reuses_fitted_statistics _ _ Hfit) Examples.X0 2%nat eq_refl).
Defined.

End ScalerFacts.

(** ** [ChurnTransformer.forward] *)

Module NetFacts.
Import Num Net.
Local Open Scope R_scope.

(** Inversion of binds *)
Lemma result_bind_ok {A B} (r : result A) (k : A → result B) b :
  r ≫= k = Ok b → ∃ a, r = Ok a ∧ k a = Ok b.
Proof. destruct r as [a|e]; [|done]. intros H. by exists a. Qed.

Lemma result_fmap_ok {A B} (f : A → B) (r : result A) b :
  f <$> r = Ok b → ∃ a, r = Ok a ∧ b = f a.
Proof. destruct r as [a|e]; [|done]. intros [= <-]. by exists a. Qed.

Lemma gen_bind_ok {A B} (m : gen A) (k : A → gen B) g b g' :
  (m ≫= k) g = Ok (b, g') → ∃ a g1, m g = Ok (a, g1) ∧ k a g1 = Ok (b, g').
Proof.
  unfold mbind, gen_bind. destruct (m g) as [[a g1]|e]; [|done].
  intros H. by exists a, g1.
Qed.

Lemma lift_ok {A} (r : result A) g a g' :
  lift r g = Ok (a, g') → r = Ok a ∧ g' = g.
Proof. unfold lift. destruct r; [|done]. by intros [= -> ->]. Qed.

Lemma gen_ret_ok {A} (a : A) g b g' :
  (mret a : gen A) g = Ok (b, g') → b = a ∧ g' = g.
Proof. unfold mret, gen_ret. by intros [= <- <-]. Qed.

(** Lengths through [mapM] *)
Lemma mapM_result_length {A B} (f : A → result B) l k :
  mapM f l = Ok k → length k = length l.
Proof.
  revert k. induction l as [|x l IH]; intros k; simpl.
  - by intros [= <-].
  - intros (y & _ & (ys & Hys & [= <-])%result_bind_ok)%result_bind_ok.
    simpl. f_equal. by apply IH.
Qed.

Lemma mapM_gen_length {A B} (f : A → gen B) l g k g' :
  mapM f l g = Ok (k, g') → length k = length l.
Proof.
  revert k g g'. induction l as [|x l IH]; intros k g g'; simpl.
  - by intros [-> _]%gen_ret_ok.
  - intros (y & g1 & _ & (ys & g2 & Hys & [-> _]%gen_ret_ok)%gen_bind_ok)%gen_bind_ok.
    simpl. f_equal. by eapply IH.
Qed.

Lemma mapM_result_Forall2 {A B} (P : A → B → Prop) (f : A → result B) l k :
  (∀ x y, f x = Ok y → P x y) → mapM f l = Ok k → Forall2 P l k.
Proof.
  intros Hf. revert k. induction l as [|x l IH]; intros k; simpl.
  - intros [= <-]. constructor.
  - intros (y & Hy & (ys & Hys & [= <-])%result_bind_ok)%result_bind_ok.
    constructor; auto.
Qed.

Lemma mapM_gen_Forall2 {A B} (P : A → B → Prop) (f : A → gen B) l g k g' :
  (∀ x y g g', f x g = Ok (y, g') → P x y) → mapM f l g = Ok (k, g') → Forall2 P l k.
Proof.
  intros Hf. revert k g g'. induction l as [|x l IH]; intros k g g'; simpl.
  - intros [-> _]%gen_ret_ok. constructor.
  - intros (y & g1 & Hy & (ys & g2 & Hys & [-> _]%gen_ret_ok)%gen_bind_ok)%gen_bind_ok.
    constructor; eauto.
Qed.

Lemma lengths_Forall2 {A B} (x : list (list A)) (y : list (list B)) :
  Forall2 (λ s t, length t = length s) x y → lengths y = lengths x.
Proof. unfold lengths. induction 1; simpl; congruence. Qed.

Lemma lengths_map {A B} (f : A → B) (x : list (list A)) :
  lengths (map (map f) x) = lengths x.
Proof. unfold lengths. rewrite map_map. apply map_ext. intros s. apply length_map. Qed.

Lemma lengths_mapM_result {A B} (f : A → result B) x y :
  mapM (mapM f) x = Ok y → lengths y = lengths x.
Proof.
  intros H. apply lengths_Forall2. revert H. apply mapM_result_Forall2.
  intros s t Hst. by eapply mapM_result_length.
Qed.

Lemma lengths_mapM_gen {A B} (f : A → gen B) x g y g' :
  mapM (mapM f) x g = Ok (y, g') → lengths y = lengths x.
Proof.
  intros H. apply lengths_Forall2. revert H. apply mapM_gen_Forall2.
  intros s t g1 g2 Hst. by eapply mapM_gen_length.
Qed.

Lemma lengths_add3 (x y : list (list (list R))) :
  lengths y = lengths x → lengths (add3 x y) = lengths x.
Proof.
  unfold add3, lengths. revert y. induction x as [|s x IH]; intros [|t y]; simpl; try done.
  intros [= Hst Hxy]. rewrite length_zip_with, Hst, IH by done. f_equal. lia.
Qed.

Lemma lengths_zip_with_seq {A B C} (F : A → list B → nat → C) w (v : list (list B)) :
  length w = length v →
  lengths (zip_with (λ wn vn, map (F wn vn) (seq 0 (length vn))) w v) = lengths v.
Proof.
  unfold lengths. revert w. induction v as [|vn v IH]; intros [|wn w] Hw;
    simpl in *; try done.
  rewrite length_map, length_seq. f_equal. apply IH. lia.
Qed.

Lemma lengths_self_attention a training x g y g' :
  self_attention a training x g = Ok (y, g') → lengths y = lengths x.
Proof.
  unfold self_attention.
  intros (qkv & g1 & [Hqkv ->]%lift_ok &
          (w & g2 & Hw & [Ho ->]%lift_ok)%gen_bind_ok)%gen_bind_ok.
  apply lengths_mapM_result in Hqkv, Ho. rewrite Ho, <- Hqkv. clear Ho Hqkv.
  apply mapM_gen_length in Hw. rewrite length_zip_with, !length_map in Hw.
  rewrite (lengths_zip_with_seq
             (λ wn vn s, concat (map (λ h, attend a h (nth s (nth h wn []) []) vn)
                                     (seq 0 (num_heads a))))).
  - apply lengths_map.
  - rewrite length_map. lia.
Qed.

Lemma lengths_encoder_layer l training x g y g' :
  encoder_layer l training x g = Ok (y, g') → lengths y = lengths x.
Proof.
  unfold encoder_layer.
  intros (a & g1 & Ha%lengths_self_attention &
          (a' & g2 & Ha'%lengths_mapM_gen &
           (x1 & g3 & [Hx1%lengths_mapM_result ->]%lift_ok &
            (h & g4 & [Hh%lengths_mapM_result ->]%lift_ok &
             (h' & g5 & Hh'%lengths_mapM_gen &
              (f & g6 & [Hf%lengths_mapM_result ->]%lift_ok &
               (f' & g7 & Hf'%lengths_mapM_gen &
                [Hy%lengths_mapM_result ->]%lift_ok)
              %gen_bind_ok)%gen_bind_ok)%gen_bind_ok)%gen_bind_ok)%gen_bind_ok)
          %gen_bind_ok)%gen_bind_ok.
  rewrite !lengths_map in Hh'.
  rewrite lengths_add3 in Hx1 by congruence.
  rewrite lengths_add3 in Hy by congruence. congruence.
Qed.

Lemma lengths_encoder layers training x g y g' :
  encoder layers training x g = Ok (y, g') → lengths y = lengths x.
Proof.
  revert x g. induction layers as [|l layers IH]; intros x g; simpl.
  - by intros [-> _]%gen_ret_ok.
  - intros (x1 & g1 & Hx1%lengths_encoder_layer & Hy%IH)%gen_bind_ok. congruence.
Qed.

Lemma forward_batch_ok net m g y g' :
  forward net (T2 m) g = Ok (y, g') →
  ∃ v, y = T1 v ∧ length m = in_features (classifier net).
Proof.
  unfold forward.
  intros (x1 & g1 & [Hemb ->]%lift_ok &
          (x2 & g2 & Henc &
           (x3 & g3 & [Hmean ->]%lift_ok & [Hcls ->]%lift_ok)
          %gen_bind_ok)%gen_bind_ok)%gen_bind_ok.
  cbn in Hemb. apply result_fmap_ok in Hemb as (m1 & Hm1%mapM_result_length & ->).
  cbn in Henc.
  apply gen_bind_ok in Henc as (c & g4 & Hc%lengths_encoder & [-> _]%gen_ret_ok).
  destruct c as [|m2 [|? ?]]; try done. injection Hc as Hm2.
  cbn in Hmean. injection Hmean as <-.
  cbn in Hcls. apply result_fmap_ok in Hcls as (v & Hv & ->).
  exists v. split; [done|].
  unfold linear_vec in Hv. rewrite length_map in Hv.
  destruct (Nat.eqb_spec (length m2) (in_features (classifier net))); [|done].
  congruence.
Qed.

(** C3: the code against the claim. Given a batch of [n] feature rows,
    [forward] never returns a batch of [n] pairs of logits: it raises
    unless [n] is the input width of the classifier, and what it returns
    then is a single vector. The pooling [mean(dim=1)] runs over the hidden
    dimension of a rank-two tensor, not over a sequence axis of length
    one. *)
Theorem forward_of_batch_is_not_a_batch_of_logit_pairs
    (net : ChurnTransformer) (x : tensor) (n d : nat) (g : rng) :
  is_batch n d x →
  (n ≠ in_features (classifier net) → raises (forward net x g)) ∧
  (∀ y g', forward net x g = Ok (y, g') → ¬ is_batch n 2 y).
Proof.
  destruct x as [|m|]; try done. intros [Hn _]. split.
  - intros Hne. destruct (forward net (T2 m) g) as [[y g']|e] eqn:Hfw; [|by exists e].
    apply forward_batch_ok in Hfw as (_ & _ & ?). congruence.
  - intros y g' (v & -> & _)%forward_batch_ok. by intros [].
Qed.

Lemma generator_free_ret {A} (a : A) : generator_free (mret a).
Proof. by exists (Ok a). Qed.

Lemma generator_free_lift {A} (r : result A) : generator_free (lift r).
Proof. exists r. intros g. by destruct r. Qed.

Lemma generator_free_bind {A B} (m : gen A) (k : A → gen B) :
  generator_free m → (∀ a, generator_free (k a)) → generator_free (m ≫= k).
Proof.
  intros [[a|e] Hm] Hk.
  - destruct (Hk a) as [r Hr]. exists r. intros g.
    unfold mbind, gen_bind. rewrite Hm. cbn. apply Hr.
  - exists (Raise e). intros g. unfold mbind, gen_bind. by rewrite Hm.
Qed.

Lemma generator_free_mapM {A B} (f : A → gen B) (l : list A) :
  (∀ x, generator_free (f x)) → generator_free (mapM f l).
Proof.
  intros Hf. induction l as [|x l IH]; simpl.
  - apply generator_free_ret.
  - apply generator_free_bind; [done|]. intros y.
    apply generator_free_bind; [done|]. intros ys. apply generator_free_ret.
Qed.

Lemma generator_free_dropout p x : generator_free (dropout p false x).
Proof. apply generator_free_ret. Qed.

Create HintDb genfree.

#[local] Hint Resolve generator_free_ret generator_free_lift generator_free_mapM
  generator_free_dropout : genfree.

Ltac genfree :=
  repeat first
    [ apply generator_free_bind; [|intros ?]
    | progress eauto with genfree ].

Lemma generator_free_self_attention a x : generator_free (self_attention a false x).
Proof. unfold self_attention. genfree. Qed.

Lemma generator_free_encoder_layer l x : generator_free (encoder_layer l false x).
Proof.
  unfold encoder_layer. pose proof generator_free_self_attention. genfree.
Qed.

Lemma generator_free_encoder layers x : generator_free (encoder layers false x).
Proof.
  revert x. induction layers as [|l layers IH]; intros x; simpl.
  - apply generator_free_ret.
  - apply generator_free_bind; [apply generator_free_encoder_layer|done].
Qed.

Lemma generator_free_transformer_encoder layers x :
  generator_free (transformer_encoder layers false x).
Proof.
  pose proof generator_free_encoder.
  destruct x; simpl; [destruct layers|..]; genfree.
Qed.

(** C9, as amended. In evaluation mode [forward] is a function of the
    parameters and the input: the outcome is the same whatever the state
    of the random generator, which it leaves as it found it, so repeated
    invocations agree. *)
Theorem forward_in_evaluation_mode_is_deterministic (net : ChurnTransformer) (x : tensor) :
  training net = false →
  ∃ r : result tensor, ∀ g, forward net x g = (λ y, (y, g)) <$> r.
Proof.
  intros Heval. unfold forward. rewrite Heval.
  pose proof generator_free_transformer_encoder. change (generator_free
    (x0 ← lift (linear (embedding net) x);
     x1 ← transformer_encoder (transformer net) false x0;
     x2 ← lift (mean_dim1 x1); lift (linear (classifier net) x2))).
  genfree.
Qed.

(** Stepping the monad *)
Lemma gen_bind_eq {A B} (m : gen A) (k : A → gen B) g a g1 :
  m g = Ok (a, g1) → (m ≫= k) g = k a g1.
Proof. unfold mbind, gen_bind. by intros ->. Qed.

Lemma lift_eq {A} (r : result A) a g : r = Ok a → lift r g = Ok (a, g).
Proof. by intros ->. Qed.

Ltac crunch :=
  cbv -[sqrt exp Rmax INR IZR Rplus Rmult Rinv Ropp Rdiv Rminus pow Req_dec_T].

Lemma tiny_embedding :
  linear (embedding tiny_net) tiny_batch = Ok (T2 [[0; 0]; [0; 0]]).
Proof. crunch. repeat f_equal; ring. Qed.

Lemma tiny_self_attention g :
  self_attention tiny_attention true z22 g = Ok (z22, λ i, g (4 + i)%nat).
Proof. crunch. repeat f_equal; ring. Qed.

Lemma tiny_dropout1 g :
  mapM (mapM (mapM (dropout (layer_dropout tiny_layer) true))) z22 g
  = Ok (z22, λ i, g (4 + i)%nat).
Proof. crunch. repeat f_equal; case_match; lra. Qed.

Lemma tiny_norm1 :
  mapM (mapM (layer_norm (norm1 tiny_layer))) (add3 z22 z22) = Ok z22.
Proof. crunch. repeat f_equal; unfold Rdiv; ring. Qed.

Lemma tiny_linear1 :
  mapM (mapM (linear_vec (linear1 tiny_layer))) z22
  = Ok [[[1; 1; 1; 1]; [1; 1; 1; 1]]].
Proof. crunch. repeat f_equal; ring. Qed.

Lemma tiny_relu :
  map (map (map relu)) [[[1; 1; 1; 1]; [1; 1; 1; 1]]] = [[[1; 1; 1; 1]; [1; 1; 1; 1]]].
Proof.
  crunch. assert (Rmax 0 1 = 1) as -> by (apply Rmax_right; lra). done.
Qed.

Lemma tiny_dropout_inner g :
  mapM (mapM (mapM (dropout (layer_dropout tiny_layer) true)))
       [[[1; 1; 1; 1]; [1; 1; 1; 1]]] g
  = Ok ([[[kept (g 0%nat) 1; kept (g 1%nat) 1; kept (g 2%nat) 1; kept (g 3%nat) 1];
          [kept (g 4%nat) 1; kept (g 5%nat) 1; kept (g 6%nat) 1; kept (g 7%nat) 1]]],
        λ i, g (8 + i)%nat).
Proof. reflexivity. Qed.

Lemma tiny_linear2 (a b c d e f g h : R) :
  mapM (mapM (linear_vec (linear2 tiny_layer))) [[[a; b; c; d]; [e; f; g; h]]]
  = Ok [[[a; 0]; [e; 0]]].
Proof. crunch. repeat f_equal; ring. Qed.

Lemma tiny_dropout2 (a e : R) g :
  mapM (mapM (mapM (dropout (layer_dropout tiny_layer) true))) [[[a; 0]; [e; 0]]] g
  = Ok ([[[kept (g 0%nat) a; 0]; [kept (g 2%nat) e; 0]]], λ i, g (4 + i)%nat).
Proof. crunch. repeat f_equal; try done; case_match; lra. Qed.

Lemma normed_entry (a : R) :
  (0 + a - (0 + a + (0 + 0 + 0)) / (1 + 1)) /
  sqrt
    (((0 + a - (0 + a + (0 + 0 + 0)) / (1 + 1)) ^ 2 +
      ((0 + 0 - (0 + a + (0 + 0 + 0)) / (1 + 1)) ^ 2 + 0)) /
     (1 + 1) + 1 / 100000) *
  1 + 0 = normed a.
Proof.
  unfold normed.
  replace (0 + a - (0 + a + (0 + 0 + 0)) / (1 + 1)) with (a / 2) by lra.
  replace (0 + 0 - (0 + a + (0 + 0 + 0)) / (1 + 1)) with (- (a / 2)) by lra.
  replace (((a / 2) ^ 2 + ((- (a / 2)) ^ 2 + 0)) / (1 + 1)) with (a * a / 4) by field.
  unfold Rdiv. ring.
Qed.

Lemma tiny_norm2 (a e : R) :
  mapM (mapM (layer_norm (norm2 tiny_layer))) (add3 z22 [[[a; 0]; [e; 0]]])
  = Ok [[[normed a; 0]; [normed e; 0]]].
Proof.
  crunch. simpl INR. rewrite !normed_entry.
  repeat f_equal; unfold Rdiv; ring.
Qed.

Lemma tiny_mean (a e : R) :
  mean_dim1 (T2 [[normed a; 0]; [normed e; 0]])
  = Ok (T1 [normed a / 2; normed e / 2]).
Proof. crunch. simpl INR. repeat f_equal; lra. Qed.

Lemma tiny_classifier (u v : R) :
  linear (classifier tiny_net) (T1 [u; v]) = Ok (T1 [u; v]).
Proof. crunch. repeat f_equal; ring. Qed.

Lemma tiny_encoder_layer g :
  encoder_layer tiny_layer true z22 g
  = Ok ([[[normed (kept (g 16%nat) (kept (g 8%nat) 1)); 0];
          [normed (kept (g 18%nat) (kept (g 12%nat) 1)); 0]]],
        λ i, g (20 + i)%nat).
Proof.
  unfold encoder_layer.
  erewrite gen_bind_eq by apply tiny_self_attention.
  erewrite gen_bind_eq by apply tiny_dropout1.
  erewrite gen_bind_eq by apply lift_eq, tiny_norm1.
  erewrite gen_bind_eq by apply lift_eq, tiny_linear1.
  rewrite tiny_relu.
  erewrite gen_bind_eq by apply tiny_dropout_inner.
  erewrite gen_bind_eq by apply lift_eq, tiny_linear2.
  erewrite gen_bind_eq by apply tiny_dropout2.
  erewrite lift_eq by apply tiny_norm2. reflexivity.
Qed.

Lemma tiny_forward g :
  forward tiny_net tiny_batch g
  = Ok (T1 [normed (kept (g 16%nat) (kept (g 8%nat) 1)) / 2;
            normed (kept (g 18%nat) (kept (g 12%nat) 1)) / 2],
        λ i, g (20 + i)%nat).
Proof.
  unfold forward.
  erewrite gen_bind_eq by apply lift_eq, tiny_embedding.
  erewrite gen_bind_eq; cycle 1.
  { unfold transformer_encoder. cbn [transformer tiny_net training encoder].
    erewrite gen_bind_eq; cycle 1.
    { erewrite gen_bind_eq by apply tiny_encoder_layer. reflexivity. }
    reflexivity. }
  cbn [hd].
  erewrite gen_bind_eq by apply lift_eq, tiny_mean.
  erewrite lift_eq by apply tiny_classifier. reflexivity.
Qed.

Lemma normed_zero : normed 0 = 0.
Proof. unfold normed, Rdiv. ring. Qed.

Lemma normed_pos (a : R) : 0 < a → 0 < normed a.
Proof.
  intros Ha. unfold normed. apply Rdiv_lt_0_compat; [lra|].
  apply sqrt_lt_R0. nra.
Qed.

(** C9: counterexample. In training mode, as a new module is and as the
    training loop calls it, two invocations of [forward] in a row on the
    same parameters and the same batch return different logits: dropout
    draws from the generator. *)
Lemma forward_in_training_mode_differs :
  ∃ y1 g1 y2 g2,
    training tiny_net = true ∧
    forward tiny_net tiny_batch (draws_then_drop 20) = Ok (y1, g1) ∧
    forward tiny_net tiny_batch g1 = Ok (y2, g2) ∧
    y1 ≠ y2.
Proof.
  eexists _, _, _, _. split_and!; [done|apply tiny_forward..|].
  unfold draws_then_drop.
  rewrite !(bool_decide_eq_true_2 (_ < 20)%nat) by lia.
  rewrite !(bool_decide_eq_false_2 (20 + _ < 20)%nat) by lia.
  cbv [kept]. rewrite normed_zero. intros [= Heq _].
  pose proof (normed_pos (1 / (1 - 1 / 10) / (1 - 1 / 10))) as Hpos.
  assert (0 < 1 / (1 - 1 / 10) / (1 - 1 / 10)) as Ha.
  { apply Rdiv_lt_0_compat; [apply Rdiv_lt_0_compat|]; lra. }
  specialize (Hpos Ha). lra.
Qed.

Lemma mapM_identity {A} (f : A → gen A) (l : list A) g :
  (∀ a g, f a g = Ok (a, g)) → mapM f l g = Ok (l, g).
Proof.
  intros Hf. revert g. induction l as [|a l IH]; intros g; [done|].
  cbn [mapM]. erewrite gen_bind_eq by apply Hf.
  erewrite gen_bind_eq by apply IH. reflexivity.
Qed.

Lemma dropout_in_evaluation_mode p (x : list (list (list R))) g :
  mapM (mapM (mapM (dropout p false))) x g = Ok (x, g).
Proof.
  apply mapM_identity. intros s g1. apply mapM_identity. intros r g2.
  apply mapM_identity. intros a g3. reflexivity.
Qed.

Lemma seq_embedding : linear (embedding tiny_net) seq_batch = Ok (T3 z212).
Proof. crunch. repeat f_equal; ring. Qed.

Lemma seq_self_attention g : self_attention tiny_attention false z212 g = Ok (z212, g).
Proof. crunch. repeat f_equal; ring. Qed.

Lemma seq_norm1 : mapM (mapM (layer_norm (norm1 tiny_layer))) (add3 z212 z212) = Ok z212.
Proof. crunch. repeat f_equal; unfold Rdiv; ring. Qed.

Lemma seq_feed_forward :
  mapM (mapM (linear_vec (linear1 tiny_layer))) z212
    ≫= (λ h, mapM (mapM (linear_vec (linear2 tiny_layer))) (map (map (map relu)) h))
  = Ok [[[1; 0]]; [[1; 0]]].
Proof.
  crunch. assert (Rmax 0 (0 * 0 + (0 * 0 + 0) + 1) = 1) as ->.
  { replace (0 * 0 + (0 * 0 + 0) + 1) with 1 by ring. apply Rmax_right. lra. }
  repeat f_equal; ring.
Qed.

Lemma seq_norm2 :
  mapM (mapM (layer_norm (norm2 tiny_layer))) (add3 z212 [[[1; 0]]; [[1; 0]]])
  = Ok [[[normed 1; 0]]; [[normed 1; 0]]].
Proof.
  crunch. simpl INR. rewrite !normed_entry. repeat f_equal; unfold Rdiv; ring.
Qed.

Lemma seq_encoder_layer g :
  encoder_layer tiny_layer false z212 g = Ok ([[[normed 1; 0]]; [[normed 1; 0]]], g).
Proof.
  unfold encoder_layer.
  erewrite gen_bind_eq by apply seq_self_attention.
  erewrite gen_bind_eq by apply dropout_in_evaluation_mode.
  erewrite gen_bind_eq by apply lift_eq, seq_norm1.
  pose proof seq_feed_forward as Hff.
  apply result_bind_ok in Hff as (h & Hh & Hf).
  erewrite gen_bind_eq by apply lift_eq, Hh.
  erewrite gen_bind_eq by apply dropout_in_evaluation_mode.
  erewrite gen_bind_eq by apply lift_eq, Hf.
  erewrite gen_bind_eq by apply dropout_in_evaluation_mode.
  erewrite lift_eq by apply seq_norm2. reflexivity.
Qed.

Lemma seq_mean :
  mean_dim1 (T3 [[[normed 1; 0]]; [[normed 1; 0]]])
  = Ok (T2 [[normed 1; 0]; [normed 1; 0]]).
Proof.
  cbv [mean_dim1 map hd length seq nth mean total foldr]. simpl INR.
  repeat f_equal; lra.
Qed.

Lemma seq_classifier (u v : R) :
  linear (classifier (eval tiny_net)) (T2 [[u; 0]; [v; 0]]) = Ok (T2 [[u; 0]; [v; 0]]).
Proof. crunch. repeat f_equal; ring. Qed.

(** With the sequence axis of length one that the callers leave out, the
    same [forward] does return a pair of logits per row, and the pooling is
    then the identity. *)
Lemma forward_with_a_sequence_axis g :
  forward (eval tiny_net) seq_batch g = Ok (T2 [[normed 1; 0]; [normed 1; 0]], g).
Proof.
  unfold forward.
  erewrite gen_bind_eq by apply lift_eq, seq_embedding.
  erewrite gen_bind_eq; cycle 1.
  { cbn [transformer_encoder transformer eval set_training tiny_net training encoder].
    erewrite gen_bind_eq; cycle 1.
    { erewrite gen_bind_eq by apply seq_encoder_layer. reflexivity. }
    reflexivity. }
  erewrite gen_bind_eq by apply lift_eq, seq_mean.
  apply lift_eq, seq_classifier.
Qed.

(** A batch of three rows makes [forward] of the small instance raise. *)
Lemma forward_of_batch_witness :
  is_batch 3 1 three_rows ∧
  raises (forward tiny_net three_rows (draws_then_drop 0)).
Proof.
  assert (is_batch 3 1 three_rows) as Hb by (cbn; repeat constructor).
  split; [exact Hb|].
  apply (proj1 (forward_of_batch_is_not_a_batch_of_logit_pairs
                  tiny_net three_rows 3 1 (draws_then_drop 0) Hb)).
  cbn. lia.
Defined.

Lemma forward_in_evaluation_mode_witness :
  training (eval tiny_net) = false ∧
  ∃ r : result tensor,
    ∀ g, forward (eval tiny_net) tiny_batch g = (λ y, (y, g)) <$> r.
Proof.
  split; [reflexivity|].
  exact (forward_in_evaluation_mode_is_deterministic (eval tiny_net) tiny_batch eq_refl).
Defined.

End NetFacts.

(** ** The training loop *)

Module TrainFacts.
Import Num Net Train NetFacts.
Local Open Scope R_scope.

Section loop_facts.
Context {T O : Type}.
Variable apply_model : gmap string T → bool → tensor → gen tensor.
Variable backward_step : O → gmap string T → batch → rng → O * gmap string T.
Variable parameters : gmap string loc.
Variable train_loader : nat → list batch.
Variable val_loader : list batch.

#[local] Abbreviation state := (@state T O).
#[local] Abbreviation train_pass := (train_pass apply_model backward_step parameters).
#[local] Abbreviation val_pass := (val_pass apply_model parameters).
#[local] Abbreviation epoch_body :=
  (epoch_body apply_model backward_step parameters train_loader val_loader).
#[local] Abbreviation epochs_from :=
  (epochs_from apply_model backward_step parameters train_loader val_loader).
#[local] Abbreviation training_loop :=
  (training_loop apply_model backward_step parameters train_loader val_loader).
#[local] Abbreviation epoch_val_loss :=
  (epoch_val_loss apply_model backward_step parameters train_loader val_loader).
#[local] Abbreviation allocated := (allocated (T:=T) parameters).
#[local] Abbreviation own_snapshot := (own_snapshot parameters).
#[local] Abbreviation never_a_batch := (never_a_batch apply_model).

Lemma allocated_write values h : allocated h → allocated (write parameters values h).
Proof.
  intros Hh name l Hl. specialize (Hh name l Hl). unfold write.
  apply (map_fold_weak_ind (λ r _, is_Some (r !! l))); [done|].
  intros name' l' m r _ Hr. destruct (values !! name'); [|done].
  destruct (decide (l' = l)) as [->|Hne].
  - rewrite lookup_insert_eq. eauto.
  - by rewrite lookup_insert_ne.
Qed.

Lemma load_state_dict_own h :
  allocated h → load_state_dict parameters (Some (dict_copy (state_dict parameters))) h = Ok h.
Proof.
  intros Hh. unfold load_state_dict, dict_copy, state_dict.
  assert (Forall (λ e, parameters !! e.1 = Some e.2) (map_to_list parameters)) as Hall.
  { apply Forall_forall. intros [name l] Hin. by apply elem_of_map_to_list in Hin. }
  induction Hall as [|[name l] entries Hl _ IH]; [done|].
  cbn [foldl]. unfold copy_from at 2. cbn in *. rewrite Hl.
  destruct (Hh name l Hl) as [v Hv]. rewrite Hv, insert_id by done. exact IH.
Qed.

Lemma train_pass_allocated batches train_loss (s : state) r s' :
  allocated (store s) → train_pass batches train_loss s = Ok (r, s') →
  allocated (store s').
Proof.
  revert train_loss s. induction batches as [|b batches IH]; intros train_loss s Hs; simpl.
  - by intros [= _ <-].
  - intros ([outputs g] & _ & (loss & _ & Hrest)%result_bind_ok)%result_bind_ok.
    destruct (backward_step _ _ _ _) as [o values'].
    eapply IH; [|exact Hrest]. by apply allocated_write.
Qed.

Lemma val_pass_store batches acc (s : state) r s' :
  val_pass batches acc s = Ok (r, s') → store s' = store s.
Proof.
  revert acc s. induction batches as [|b batches IH]; intros [[val_loss correct] total] s; simpl.
  - by intros [= _ <-].
  - intros ([outputs g] & _ & (loss & _ & (p & _ & Hrest)%result_bind_ok)
           %result_bind_ok)%result_bind_ok.
    by apply IH in Hrest.
Qed.

Lemma epoch_body_invariant epoch best (s : state) best' s' :
  allocated (store s) → own_snapshot best →
  epoch_body epoch best s = Ok (best', s') →
  allocated (store s') ∧ own_snapshot best'.
Proof.
  intros Hs Hbest. unfold epoch_body.
  intros ([train_loss s1] & Htrain &
          ([[[val_loss correct] total] s2] & Hval &
           (val_accuracy & _ & Hrest)%result_bind_ok)%result_bind_ok)%result_bind_ok.
  apply train_pass_allocated in Htrain; [|done].
  apply val_pass_store in Hval.
  assert (own_snapshot (if improves val_loss best.1
                        then (Some val_loss, Some (dict_copy (state_dict parameters)))
                        else best)) as Hbest'.
  { destruct (improves _ _); [by right|done]. }
  destruct (Nat.eqb _ _).
  - apply result_bind_ok in Hrest as (avg_train & _ &
      (avg_val & _ & [= <- <-])%result_bind_ok).
    cbn. by rewrite Hval.
  - injection Hrest as <- <-. by rewrite Hval.
Qed.

Lemma epochs_from_invariant remaining epoch best (s : state) best' s' :
  allocated (store s) → own_snapshot best →
  epochs_from remaining epoch best s = Ok (best', s') →
  allocated (store s') ∧ own_snapshot best'.
Proof.
  revert epoch best s. induction remaining as [|n IH]; intros epoch best s Hs Hbest; simpl.
  - by intros [= <- <-].
  - intros ([best1 s1] & Hbody & Hrest)%result_bind_ok.
    eapply epoch_body_invariant in Hbody as [? ?]; [|done..].
    by eapply IH in Hrest.
Qed.

(** What an epoch does to the best-so-far record. *)
Lemma epoch_body_record epoch best (s : state) best' s' :
  epoch_body epoch best s = Ok (best', s') →
  ∃ v, epoch_val_loss epoch s = Ok v ∧
    best' = (if improves v best.1
             then (Some v, Some (dict_copy (state_dict parameters)))
             else best) ∧
    ∀ best2, ∃ b2, epoch_body epoch best2 s = Ok (b2, s').
Proof.
  unfold Train.epoch_body, Train.epoch_val_loss.
  destruct (train_pass _ _ _) as [[train_loss s1]|e]; [|done].
  cbn [mbind result_bind].
  destruct (val_pass _ _ _) as [[[[val_loss correct] total] s2]|e]; [|done].
  cbn [mbind result_bind].
  destruct (py_div _ total) as [val_accuracy|e]; [|done].
  cbn [mbind result_bind]. destruct (Nat.eqb _ _).
  - destruct (py_div train_loss _) as [avg_train|e]; [|done].
    cbn [mbind result_bind].
    destruct (py_div val_loss _) as [avg_val|e]; [|done].
    cbn [mbind result_bind]. intros [= <- <-]. exists val_loss.
    split_and!; [done..|]. intros best2. eauto.
  - intros [= <- <-]. exists val_loss. split_and!; [done..|]. intros best2. eauto.
Qed.

Lemma train_pass_raises b batches train_loss (s : state) :
  never_a_batch → raises (train_pass (b :: batches) train_loss s).
Proof.
  intros Hnever. simpl.
  destruct (apply_model _ _ _ _) as [[outputs g]|e] eqn:Hout; [|by exists e].
  apply Hnever in Hout as [v ->]. by exists RuntimeError.
Qed.

Lemma val_pass_raises b batches acc (s : state) :
  never_a_batch → raises (val_pass (b :: batches) acc s).
Proof.
  intros Hnever. destruct acc as [[val_loss correct] total]. simpl.
  destruct (apply_model _ _ _ _) as [[outputs g]|e] eqn:Hout; [|by exists e].
  apply Hnever in Hout as [v ->]. by exists RuntimeError.
Qed.

Lemma epoch_body_raises epoch best (s : state) :
  never_a_batch → raises (epoch_body epoch best s).
Proof.
  intros Hnever. unfold epoch_body.
  destruct (train_loader epoch) as [|b batches].
  - cbn. destruct val_loader as [|b batches].
    + by exists ZeroDivisionError.
    + destruct (val_pass_raises b batches (0, 0%nat, 0%nat) s Hnever) as [e He].
      exists e. by rewrite He.
  - destruct (train_pass_raises b batches 0 s Hnever) as [e He].
    exists e. by rewrite He.
Qed.

Lemma training_loop_raises epochs (s : state) :
  never_a_batch → raises (training_loop epochs s).
Proof.
  intros Hnever. unfold training_loop. destruct epochs as [|n].
  - by exists AttributeError.
  - simpl. destruct (epoch_body_raises 0 (None, None) s Hnever) as [e He].
    exists e. by rewrite He.
Qed.

End loop_facts.

(** Reading a module back from the storage allocated for it gives the
    module: what makes the loop raise on [ChurnTransformer] is [forward],
    not the plumbing of the store. *)
Lemma tiny_parameters_roundtrip :
  with_values tiny_net
    (read (allocate (named_parameters tiny_net)).1
          (allocate (named_parameters tiny_net)).2)
  = Ok tiny_net.
Proof. vm_compute. reflexivity. Qed.

Lemma apply_net_never_a_batch net : never_a_batch (apply_net net).
Proof.
  intros values mode m g y g'. unfold apply_net.
  intros (net' & g1 & _ & (v & -> & _)%forward_batch_ok)%gen_bind_ok. by exists v.
Qed.

(** Whatever the tables, the epoch budget and the library pieces,
    [train_churn_model] raises: [forward] never hands the loss a batch of
    logit rows. *)
Lemma train_churn_model_raises {O : Type}
    (train_test_split :
       Scaler.matrix → list Z →
       result (Scaler.matrix * Scaler.matrix * list Z * list Z))
    (shuffle : nat → list (list R * Z) → list (list R * Z))
    (new_model : nat → ChurnTransformer) (adam : R → O)
    (backward_step : O → gmap string tensor → batch → rng → O * gmap string tensor)
    (seed : rng) (df1 df2 : Frame.frame) (epochs batch_size : nat) (learning_rate : R) :
  raises (train_churn_model train_test_split shuffle new_model adam backward_step seed
            df1 df2 epochs batch_size learning_rate).
Proof.
  unfold train_churn_model. destruct (Frame.prepare_data df1 df2) as [features labels].
  destruct (Scaler.fit_transform _) as [[scaler features_scaled]|e]; [|by exists e].
  cbn [mbind result_bind].
  destruct (train_test_split _ _) as [[[[X_train X_val] y_train] y_val]|e];
    [|by exists e].
  cbn [mbind result_bind].
  destruct (data_loader batch_size (ChurnDataset X_train y_train)) as [?|e]; [|by exists e].
  cbn [mbind result_bind].
  destruct (data_loader batch_size (ChurnDataset X_val y_val)) as [val_loader|e]; [|by exists e].
  cbn [mbind result_bind].
  match goal with |- context [allocate ?n] => destruct (allocate n) as [parameters h] end.
  match goal with |- context [training_loop ?a ?b ?p ?tl ?vl ?n ?s] =>
    destruct (training_loop_raises a b p tl vl n s (apply_net_never_a_batch _)) as [e He];
    rewrite He end.
  by exists e.
Qed.


(** C2: the code against the claim. Whatever the two tables, the epoch
    budget, the batch size, the learning rate and the library pieces (the
    split, the shuffle, the parameters the module starts with, the
    optimiser, the generator), [train_churn_model] raises: it returns no
    model, and so none that holds the parameters of the best epoch.
    [forward] never hands the loss a batch of logit rows, so the first
    batch of the first epoch ends the call; with no batch the accuracy
    divides by zero, and with no epoch the reload of [None] raises. *)
Theorem train_churn_model_never_returns {O : Type}
    (train_test_split :
       Scaler.matrix → list Z →
       result (Scaler.matrix * Scaler.matrix * list Z * list Z))
    (shuffle : nat → list (list R * Z) → list (list R * Z))
    (new_model : nat → ChurnTransformer) (adam : R → O)
    (backward_step : O → gmap string tensor → batch → rng → O * gmap string tensor)
    (seed : rng) (df1 df2 : Frame.frame) (epochs batch_size : nat) (learning_rate : R) :
  raises (train_churn_model train_test_split shuffle new_model adam backward_step seed
            df1 df2 epochs batch_size learning_rate) ∧
  ∀ model_and_scaler,
    train_churn_model train_test_split shuffle new_model adam backward_step seed
      df1 df2 epochs batch_size learning_rate ≠ Ok model_and_scaler.
Proof.
  destruct (train_churn_model_raises train_test_split shuffle new_model adam
              backward_step seed df1 df2 epochs batch_size learning_rate) as [e He].
  split; [by exists e|]. intros model_and_scaler. rewrite He. discriminate.
Qed.

End TrainFacts.

(** ** [predict_churn] *)

Module PredictFacts.
Import Net Scaler Predict.

Lemma transform_of_no_rows (s : scaler) : transform s [] = Raise ValueError.
Proof. reflexivity. Qed.

Lemma predict_churn_outcome {A} (model : ChurnTransformer) (scaler : scaler)
    (client_data : A) (g : rng) :
  predict_churn model scaler client_data g = (eval model, Raise ValueError).
Proof.
  unfold predict_churn. rewrite transform_of_no_rows. reflexivity.
Qed.

(** C7: the code against the claim. Whatever it is given, [predict_churn]
    puts the module in evaluation mode and then raises [ValueError]: the
    feature list it hands to the scaler is the empty one. No probability
    is returned, for any input. *)
Theorem predict_churn_raises {A} (model : ChurnTransformer) (scaler : scaler)
    (client_data : A) (g : rng) :
  training (predict_churn model scaler client_data g).1 = false ∧
  (predict_churn model scaler client_data g).2 = Raise ValueError ∧
  ∀ probabilities, (predict_churn model scaler client_data g).2 ≠ Ok probabilities.
Proof.
  rewrite predict_churn_outcome. cbn [fst snd]. split_and!; [done..|].
  intros probabilities. discriminate.
Qed.

(** C10. The outcome of [predict_churn] does not depend on [client_data]:
    two calls that differ only in that argument, of whatever types, agree
    on the module they leave and on the result or failure. *)
Theorem predict_churn_ignores_client_data {A B} (model : ChurnTransformer)
    (scaler : scaler) (data1 : A) (data2 : B) (g : rng) :
  predict_churn model scaler data1 g = predict_churn model scaler data2 g.
Proof.
  transitivity (eval model, Raise ValueError : result tensor).
  - apply predict_churn_outcome.
  - symmetry. apply predict_churn_outcome.
Qed.

End PredictFacts.

(** ** More on [prepare_data] *)

Module FeatureFacts.
Import Frame Features FrameFacts.

Lemma NoDup_filter_length {A} `{EqDecision A} (u cats : list A) :
  NoDup u → NoDup cats → u ⊆ cats →
  length (filter (λ x, x ∈ u) cats) = length u.
Proof.
  intros Hu Hcats Hsub. apply Permutation_length, NoDup_Permutation.
  - by apply NoDup_filter.
  - done.
  - intros x. rewrite list_elem_of_filter. set_solver.
Qed.

Lemma length_unique_le {A} `{EqDecision A} (l : list A) : (length (unique l) ≤ length l)%nat.
Proof.
  apply submseteq_length, NoDup_submseteq; [apply NoDup_unique|].
  intros x. by rewrite elem_of_unique.
Qed.

Lemma length_unique_pos {A} `{EqDecision A} (l : list A) :
  l ≠ [] → (1 ≤ length (unique l))%nat.
Proof.
  destruct l as [|x l]; [done|]. intros _.
  assert (x ∈ unique (x :: l)) as Hx by (apply elem_of_unique; left).
  destruct (unique (x :: l)); [by apply elem_of_nil in Hx|simpl; lia].
Qed.

(** X1. The output has one row and one label for every distinct client id
    of period 1 (none when the table is empty); every label is 0 or 1, and
    the labels that are 1 are as many as the period-1 ids missing from
    period 2. *)
Theorem prepare_data_counts (df1 df2 : frame) :
  let X := (prepare_data df1 df2).1 in
  let y := (prepare_data df1 df2).2 in
  length X = size (clients df1) ∧
  length y = size (clients df1) ∧
  Forall (λ l, l = 0 ∨ l = 1) y ∧
  length (filter (λ l, l = 1) y) = size (clients df1 ∖ clients df2) ∧
  (df1 = [] → X = [] ∧ y = []).
Proof.
  cbn zeta. unfold prepare_data, iteration_order; cbn [fst snd].
  rewrite !length_map. split_and!; [done..| | |].
  - apply Forall_fmap, Forall_forall. intros c _. cbn. unfold label_of.
    case_decide; auto.
  - unfold size, set_size. cbn.
    transitivity (length (filter (λ c, c ∈ clients df1 ∖ clients df2)
                                 (elements (clients df1)))).
    + induction (elements (clients df1)) as [|c l IH]; [done|].
      cbn [map]. rewrite !filter_cons.
      assert (label_of (clients df1 ∖ clients df2) c = 1
              ↔ c ∈ clients df1 ∖ clients df2) as Hl
        by (unfold label_of; case_decide; naive_solver).
      destruct (decide (c ∈ clients df1 ∖ clients df2)) as [Hc|Hc].
      * rewrite decide_True by by apply Hl. simpl. by rewrite IH.
      * rewrite decide_False by by rewrite Hl. done.
    + apply Permutation_length, NoDup_Permutation.
      * apply NoDup_filter, NoDup_elements.
      * apply NoDup_elements.
      * intros c. rewrite list_elem_of_filter, !elem_of_elements. set_solver.
  - intros ->. done.
Qed.

(** X2. Of period 2 only the set of client ids matters: two second tables
    with the same ids, whatever their other columns, their order and their
    repetitions, give the same feature matrix and the same labels. *)
Theorem prepare_data_reads_only_ids_of_period2 (df1 df2 df2' : frame) :
  (∀ c, c ∈ map client_id df2 ↔ c ∈ map client_id df2') →
  prepare_data df1 df2 = prepare_data df1 df2'.
Proof.
  intros Hids. unfold prepare_data.
  assert (clients df2 = clients df2') as ->; [|done].
  apply set_eq. intros c. by rewrite !elem_of_clients.
Qed.

Lemma features_of_explicit df1 c :
  let client_data := rows_of c df1 in
  features_of df1 c =
    [ series_sum (map revenue client_data);
      series_mean (map revenue client_data);
      len client_data;
      len (unique (map product_id client_data));
      len (unique (map product_category client_data));
      series_mean (map quantity client_data);
      series_sum (map loss client_data);
      len (unique (map transaction_date client_data)) ]
    ++ map (λ cat, series_get (value_counts_normalized
                                 (map product_category client_data)) cat 0%Q)
           (categories df1).
Proof.
  cbn zeta. unfold features_of, feature_dict.
  rewrite foldl_dict_set_fresh.
  - unfold dict_values. rewrite map_app, map_map. done.
  - apply NoDup_unique.
  - intros cat _. cbv [dict_keys ratio_key String.append map fst].
    rewrite !not_elem_of_cons. split_and!; try discriminate. apply not_elem_of_nil.
Qed.

Lemma len_le {A B} (l1 : list A) (l2 : list B) :
  (length l1 ≤ length l2)%nat → (len l1 <= len l2)%Q.
Proof. intros H. unfold len. rewrite <- Zle_Qle. lia. Qed.

Lemma len_pos {A} (l : list A) : l ≠ [] → (1 <= len l)%Q.
Proof.
  intros H. unfold len. change 1%Q with (inject_Z 1). rewrite <- Zle_Qle.
  destruct l; [done|]. simpl. lia.
Qed.

Lemma unique_nonempty {A} `{EqDecision A} (l : list A) : l ≠ [] → unique l ≠ [].
Proof.
  intros Hl Hu. apply length_unique_pos in Hl. rewrite Hu in Hl. simpl in Hl. lia.
Qed.

Lemma length_unique_size {A} `{Countable A} (l : list A) :
  length (unique l) = size (list_to_set l : gset A).
Proof.
  rewrite <- (size_list_to_set (C:=gset A)) by apply NoDup_unique.
  f_equal. apply set_eq. intros x. by rewrite !elem_of_list_to_set, elem_of_unique.
Qed.


Lemma ratio_of_category (l : list string) (cat : string) :
  series_get (value_counts_normalized l) cat 0%Q
  = if decide (cat ∈ l) then (inject_Z (Z.of_nat (occurrences cat l)) / len l)%Q
    else 0%Q.
Proof.
  unfold value_counts_normalized. rewrite series_get_map.
  destruct (decide (cat ∈ unique l)) as [Hin|Hin];
    rewrite elem_of_unique in Hin; [by rewrite decide_True|by rewrite decide_False].
Qed.

Lemma occurrences_le {A} `{EqDecision A} (x : A) l : (occurrences x l ≤ length l)%nat.
Proof. unfold occurrences. apply length_filter. Qed.

Lemma occurrences_pos {A} `{EqDecision A} (x : A) l : x ∈ l → (1 ≤ occurrences x l)%nat.
Proof.
  induction 1 as [x l|x y l _ IH]; rewrite occurrences_cons.
  - rewrite decide_True by done. lia.
  - lia.
Qed.

Lemma ratio_bounds (l : list string) (cat : string) :
  let q := series_get (value_counts_normalized l) cat 0%Q in
  (0 <= q <= 1)%Q ∧ (Qeq_bool q 0 = false ↔ cat ∈ l).
Proof.
  cbn zeta. rewrite ratio_of_category. destruct (decide (cat ∈ l)) as [Hin|Hin].
  - assert (l ≠ []) as Hl by (intros ->; by apply elem_of_nil in Hin).
    pose proof (occurrences_pos cat l Hin) as Hpos.
    pose proof (occurrences_le cat l) as Hle.
    assert (0 < len l)%Q as Hlen.
    { apply Qlt_le_trans with 1%Q; [done|by apply len_pos]. }
    split_and!.
    + apply Qle_shift_div_l; [done|]. rewrite Qmult_0_l.
      change 0%Q with (inject_Z 0). rewrite <- Zle_Qle. lia.
    + apply Qle_shift_div_r; [done|]. rewrite Qmult_1_l.
      unfold len. rewrite <- Zle_Qle. lia.
    + split; [done|]. intros _. apply not_true_is_false. intros Heq%Qeq_bool_iff.
      assert (inject_Z (Z.of_nat (occurrences cat l)) == 0)%Q as Hzero.
      { rewrite <- (Qmult_div_r (inject_Z (Z.of_nat (occurrences cat l))) (len l))
          by (intros E; rewrite E in Hlen; by apply Qlt_irrefl in Hlen).
        rewrite Heq. ring. }
      revert Hzero. unfold Qeq. simpl. lia.
  - split; [done|]. split; [done|tauto].
Qed.

(** X4. Every category-ratio column of a row lies between 0 and 1, and
    the columns that are not zero are as many as the row's
    [product_categories] aggregate says: the distinct categories the
    client bought in. *)
Theorem prepare_data_nonzero_ratios (df1 df2 : frame) (i : nat) (c : Z) (r : list Q) :
  client_at df1 i = Some c →
  (prepare_data df1 df2).1 !! i = Some r →
  Forall (λ q, 0 <= q <= 1)%Q (ratio_columns r) ∧
  r !! 4%nat = Some (inject_Z (Z.of_nat (nonzero_ratios r))).
Proof.
  unfold prepare_data, client_at; cbn [fst]. intros Hi.
  rewrite list_lookup_fmap, Hi. cbn. intros [= <-].
  unfold nonzero_ratios, ratio_columns.
  rewrite features_of_explicit. cbn zeta. rewrite drop_app_length' by done.
  set (l := map product_category (rows_of c df1)). split.
  - apply Forall_fmap, Forall_forall. intros cat _. apply ratio_bounds.
  - cbn. unfold len. do 3 f_equal.
    rewrite <- (NoDup_filter_length (unique l) (categories df1)).
    + induction (categories df1) as [|cat cats IH]; [done|].
      cbn [map]. rewrite !filter_cons.
      pose proof (proj2 (ratio_bounds l cat)) as Hcat. cbn zeta in Hcat.
      destruct (decide (cat ∈ unique l)) as [Hin|Hin]; rewrite elem_of_unique in Hin.
      * rewrite decide_True by by apply Hcat. simpl. by rewrite IH.
      * rewrite decide_False by by rewrite Hcat. done.
    + apply NoDup_unique.
    + apply NoDup_unique.
    + intros cat Hcat. rewrite elem_of_unique in Hcat.
      exact (rows_of_categories c df1 cat Hcat).
Qed.


Lemma prepare_data_nonzero_ratios_witness :
  client_at Examples.period1 2 = Some 1 ∧
  (prepare_data Examples.period1 Examples.period2).1 !! 2%nat
    = Some (features_of Examples.period1 1) ∧
  features_of Examples.period1 1 !! 4%nat
    = Some (inject_Z (Z.of_nat (nonzero_ratios (features_of Examples.period1 1)))).
Proof.
  assert (client_at Examples.period1 2 = Some 1) as Hc by (vm_compute; reflexivity).
  assert ((prepare_data Examples.period1 Examples.period2).1 !! 2%nat
          = Some (features_of Examples.period1 1)) as Hr by (vm_compute; reflexivity).
  split_and!; [exact Hc|exact Hr|].
  exact (proj2 (prepare_data_nonzero_ratios _ _ _ _ _ Hc Hr)).
Defined.

Lemma prepare_data_reads_only_ids_of_period2_witness :
  (∀ c, c ∈ map client_id Examples.period2
        ↔ c ∈ map client_id (Examples.period2 ++ Examples.period2)) ∧
  prepare_data Examples.period1 Examples.period2
  = prepare_data Examples.period1 (Examples.period2 ++ Examples.period2).
Proof.
  assert (∀ c, c ∈ map client_id Examples.period2
               ↔ c ∈ map client_id (Examples.period2 ++ Examples.period2)) as H.
  { intros c. rewrite map_app, elem_of_app. tauto. }
  split; [exact H|].
  exact (prepare_data_reads_only_ids_of_period2 _ _ _ H).
Defined.

End FeatureFacts.

(** ** More on the scaler *)

Module ScalingFacts.
Import Num Scaler ScalerFacts.
Local Open Scope R_scope.

Lemma check_array_rectangular (X : matrix) (d : nat) :
  X ≠ [] → d ≠ 0%nat → Forall (λ r, length r = d) X →
  check_array X = Ok (length X, d).
Proof.
  intros HX Hd Hall. unfold check_array. destruct X as [|r X']; [done|].
  pose proof (Forall_inv Hall) as Hr. cbn beta in Hr.
  assert (forallb (λ r', Nat.eqb (length r') (length r)) (r :: X') = true) as ->.
  { apply forallb_forall. intros r' Hin%list_elem_of_In. apply Nat.eqb_eq.
    rewrite Forall_forall in Hall. rewrite (Hall r' Hin). done. }
  rewrite Hr. destruct (Nat.eqb_spec d 0); [done|]. done.
Qed.

Lemma check_array_refuses (X : matrix) (d : nat) :
  d ≠ 0%nat → ¬ (X ≠ [] ∧ Forall (λ r, length r = d) X) →
  ∀ n, check_array X ≠ Ok (n, d).
Proof.
  intros Hd Hnot n Hc. apply check_array_ok in Hc as (_ & ? & _ & ?). tauto.
Qed.

Lemma transform_fitted_width (s : scaler) (M : matrix) :
  n_features_in_ s ≠ 0%nat →
  length (mean_ s) = n_features_in_ s → length (scale_ s) = n_features_in_ s →
  (M ≠ [] ∧ Forall (λ r, length r = n_features_in_ s) M →
   transform s M = Ok (map (standardize_row s) M) ∧
   map length (map (standardize_row s) M) = map length M) ∧
  (¬ (M ≠ [] ∧ Forall (λ r, length r = n_features_in_ s) M) →
   transform s M = Raise ValueError).
Proof.
  intros Hd Hm Hs. split.
  - intros [HM Hall]. unfold transform.
    rewrite (check_array_rectangular M (n_features_in_ s)) by done.
    cbn. rewrite Nat.eqb_refl. split; [done|].
    rewrite map_map. apply map_ext_Forall.
    eapply Forall_impl; [exact Hall|]. intros r Hr. cbn beta.
    apply length_standardize_row; congruence.
  - intros Hnot. unfold transform.
    destruct (check_array M) as [[n d]|e] eqn:Hc.
    + cbn. destruct (Nat.eqb_spec d (n_features_in_ s)) as [->|]; [|done].
      by apply check_array_refuses in Hc.
    + cbn. f_equal. unfold check_array in Hc. destruct M as [|r M']; [congruence|].
      destruct (forallb _ _); [destruct (Nat.eqb _ _)|]; congruence.
Qed.

Lemma fit_lengths X s :
  fit X = Ok s →
  n_features_in_ s ≠ 0%nat ∧
  length (mean_ s) = n_features_in_ s ∧ length (scale_ s) = n_features_in_ s.
Proof.
  intros (n & Hc & -> & ->)%fit_ok. apply check_array_ok in Hc as (_ & _ & ? & _).
  by rewrite !length_map, !length_seq.
Qed.

(** X5. A fitted scaler transforms exactly the non-empty matrices whose
    rows all have the fitted number of columns, and the result has the
    shape of the argument; on every other nested list [transform] raises
    [ValueError]. *)
Theorem transform_accepts_the_fitted_width (X M : matrix) (s : scaler) :
  fit X = Ok s →
  (M ≠ [] ∧ Forall (λ r, length r = n_features_in_ s) M →
   ∃ Y, transform s M = Ok Y ∧ map length Y = map length M) ∧
  (¬ (M ≠ [] ∧ Forall (λ r, length r = n_features_in_ s) M) →
   transform s M = Raise ValueError).
Proof.
  intros (Hd & Hm & Hs)%fit_lengths.
  destruct (transform_fitted_width s M Hd Hm Hs) as [Hyes Hno]. split; [|done].
  intros HM. destruct (Hyes HM) as [? ?]. eauto.
Qed.

Lemma transform_accepts_the_fitted_width_witness :
  fit Examples.X0 = Ok Examples.fitted0 ∧
  transform Examples.fitted0 [[1]] = Raise ValueError.
Proof.
  assert (fit Examples.X0 = Ok Examples.fitted0) as Hfit by reflexivity.
  split; [exact Hfit|].
  apply (proj2 (transform_accepts_the_fitted_width Examples.X0 [[1]] _ Hfit)).
  intros [_ Hall]. apply Forall_inv in Hall. discriminate Hall.
Defined.

Lemma total_constant (v : R) (l : list R) :
  Forall (λ x, x = v) l → total l = INR (length l) * v.
Proof.
  induction 1 as [|x l -> _ IH].
  - simpl. ring.
  - cbn [total foldr]. fold (total l). rewrite IH.
    change (length (v :: l)) with (S (length l)). rewrite S_INR. ring.
Qed.

Lemma mean_constant (v : R) (l : list R) :
  l ≠ [] → Forall (λ x, x = v) l → mean l = v.
Proof.
  intros Hl Hall. unfold mean. rewrite (total_constant v) by done.
  apply INR_length_nonzero in Hl. field. exact Hl.
Qed.

Lemma variance_constant (v : R) (l : list R) :
  l ≠ [] → Forall (λ x, x = v) l → variance l = 0.
Proof.
  intros Hl Hall. unfold variance. rewrite (mean_constant v l) by done.
  apply (mean_constant 0).
  - by intros ?%fmap_nil_inv.
  - apply Forall_fmap. eapply Forall_impl; [exact Hall|].
    intros x ->. cbn. ring.
Qed.

(** X6. A column of the fitting matrix whose entries are all equal (its
    deviation is zero) gets the scale one, and the scaled matrix that
    [fit_transform] returns holds zero in that column for every row. *)
Theorem fit_transform_zeroes_a_constant_column (X Y : matrix) (s : scaler) (j : nat) (v : R) :
  fit_transform X = Ok (s, Y) →
  (j < n_features_in_ s)%nat →
  (∀ r, r ∈ X → nth j r 0 = v) →
  nth j (mean_ s) 0 = v ∧ nth j (scale_ s) 0 = 1 ∧
  length Y = length X ∧ ∀ r, r ∈ Y → nth j r 0 = 0.
Proof.
  unfold fit_transform.
  intros (s' & Hfit & (Y' & Htr & [= -> ->])%NetFacts.result_bind_ok)%NetFacts.result_bind_ok
         Hj Hconst.
  pose proof Hfit as (n & Hc & Hmean & Hscale)%fit_ok.
  pose proof Hc as (_ & HX & Hd & Hall)%check_array_ok.
  assert (Forall (λ x, x = v) (column j X)) as Hcol.
  { unfold column. apply Forall_fmap, Forall_forall. intros r Hr. by apply Hconst. }
  assert (column j X ≠ []) as Hne by (by intros ?%fmap_nil_inv).
  assert (nth j (mean_ s) 0 = v) as Hm.
  { rewrite Hmean, nth_map_seq by done. by apply mean_constant. }
  assert (nth j (scale_ s) 0 = 1) as Hs.
  { rewrite Hscale, nth_map_seq by done.
    unfold column_scale, handle_zeros_in_scale.
    rewrite (variance_constant v) by done.
    by rewrite constant_at_variance_zero. }
  unfold transform in Htr. rewrite Hc in Htr. cbn in Htr.
  rewrite Nat.eqb_refl in Htr. injection Htr as <-.
  split_and!; [done..|by rewrite length_map|].
  intros r' (r & -> & Hr)%list_elem_of_fmap.
  rewrite Forall_forall in Hall. specialize (Hall r Hr).
  destruct (fit_lengths X s Hfit) as (_ & Hlm & Hls).
  rewrite nth_standardize_row by congruence.
  rewrite Hm, Hs, (Hconst r Hr). field.
Qed.

Lemma fit_transform_zeroes_a_constant_column_witness :
  ∃ s Y, fit_transform [[1; 0]; [1; 2]] = Ok (s, Y) ∧
    (0 < n_features_in_ s)%nat ∧
    (∀ r, r ∈ [[1; 0]; [1; 2]] → nth 0 r 0 = 1) ∧
    nth 0 (scale_ s) 0 = 1.
Proof.
  eexists _, _.
  assert (∀ r : list R, r ∈ [[1; 0]; [1; 2]] → nth 0 r 0 = 1) as Hconst.
  { intros r [->|[->|[]%elem_of_nil]%elem_of_cons]%elem_of_cons; reflexivity. }
  assert (0 < 2)%nat as Hj by lia.
  split_and!; [reflexivity|exact Hj|exact Hconst|].
  exact (proj1 (proj2 (fit_transform_zeroes_a_constant_column
                         [[1; 0]; [1; 2]] _ _ 0 1 eq_refl Hj Hconst))).
Defined.

(** *** The scaler on the prepared features *)

Lemma fit_transform_rectangular (X : matrix) (d : nat) :
  X ≠ [] → d ≠ 0%nat → Forall (λ r, length r = d) X →
  ∃ s Y, fit_transform X = Ok (s, Y) ∧ n_features_in_ s = d ∧
    length Y = length X ∧ Forall (λ r, length r = d) Y.
Proof.
  intros HX Hd Hall. unfold fit_transform.
  destruct (fit X) as [s|e] eqn:Hfit.
  - pose proof Hfit as (n & Hc & _)%fit_ok.
    rewrite (check_array_rectangular X d) in Hc by done. injection Hc as _ Hds.
    destruct (fit_lengths X s Hfit) as (Hd' & Hm & Hs).
    destruct (transform_fitted_width s X Hd' Hm Hs) as [[Htr Hlen] _].
    { split; [done|]. by rewrite <- Hds. }
    cbn. rewrite Htr. cbn. eexists _, _. split_and!; [done..|by rewrite length_map|].
    apply Forall_fmap. eapply Forall_impl; [exact Hall|]. intros r Hr. cbn.
    rewrite length_standardize_row; congruence.
  - unfold fit in Hfit. rewrite (check_array_rectangular X d) in Hfit by done. done.
Qed.

(** X7. The feature matrix of a non-empty first table is never refused
    by the scaler: [fit_transform] returns, the fitted width is 8 plus the
    number of categories, and the scaled matrix has one row of that width
    for every client. *)
Theorem prepared_features_are_scaled (df1 df2 : Frame.frame) :
  df1 ≠ [] →
  ∃ s Y, fit_transform (map (map Q2R) (Frame.prepare_data df1 df2).1) = Ok (s, Y) ∧
    n_features_in_ s = (8 + length (Frame.categories df1))%nat ∧
    length Y = size (Frame.clients df1) ∧
    Forall (λ r, length r = (8 + length (Frame.categories df1))%nat) Y.
Proof.
  intros Hdf.
  destruct (fit_transform_rectangular (map (map Q2R) (Frame.prepare_data df1 df2).1)
              (8 + length (Frame.categories df1))) as (s & Y & HY & Hd & Hlen & Hall).
  - unfold Frame.prepare_data, Frame.iteration_order; cbn [fst].
    intros Hnil%fmap_nil_inv%fmap_nil_inv. apply elements_empty_inv in Hnil.
    destruct df1 as [|r df1]; [done|].
    assert (Frame.client_id r ∈ Frame.clients (r :: df1)) as Hin.
    { apply FrameFacts.elem_of_clients. left. }
    apply leibniz_equiv in Hnil. rewrite Hnil in Hin. set_solver.
  - lia.
  - unfold Frame.prepare_data; cbn [fst]. apply Forall_fmap, Forall_fmap, Forall_forall.
    intros c _. cbn. rewrite length_map.
    destruct (FrameFacts.features_of_eq df1 c) as (base & Hbase & ->).
    rewrite length_app, length_map. lia.
  - exists s, Y. split_and!; [done..| |done].
    rewrite Hlen. unfold Frame.prepare_data, Frame.iteration_order; cbn [fst].
    by rewrite !length_map.
Qed.

Lemma prepared_features_are_scaled_witness :
  Examples.period1 ≠ [] ∧
  ∃ s Y, fit_transform (map (map Q2R)
                          (Frame.prepare_data Examples.period1 Examples.period2).1)
         = Ok (s, Y) ∧ length Y = size (Frame.clients Examples.period1).
Proof.
  assert (Examples.period1 ≠ []) as H by discriminate.
  split; [exact H|].
  destruct (prepared_features_are_scaled Examples.period1 Examples.period2 H)
    as (s & Y & HY & _ & Hlen & _).
  exists s, Y. split; [exact HY|exact Hlen].
Defined.

End ScalingFacts.

(** ** The dataset and the loaders *)

Module DataFacts.
Import Train.

Lemma index_in_range {A} (t : list A) (idx : Z) :
  let n := Z.of_nat (length t) in
  (-n ≤ idx < n → ∃ x, t !! Z.to_nat (idx `mod` n) = Some x ∧ Dataset.index t idx = Ok x) ∧
  (¬ (-n ≤ idx < n) → Dataset.index t idx = Raise IndexError).
Proof.
  cbn zeta. unfold Dataset.index. cbn zeta. set (n := Z.of_nat (length t)). split.
  - intros Hidx.
    assert ((if decide (idx < 0) then idx + n else idx) = idx `mod` n) as ->.
    { case_decide.
      - apply (Z.mod_unique idx n (-1)); lia.
      - symmetry. apply Z.mod_small. lia. }
    assert (0 ≤ idx `mod` n < n) as Hmod by (apply Z.mod_pos_bound; lia).
    rewrite decide_True by done.
    destruct (lookup_lt_is_Some_2 t (Z.to_nat (idx `mod` n))) as [x Hx]; [lia|].
    exists x. by rewrite Hx.
  - intros Hidx. rewrite decide_False; [done|]. case_decide; lia.
Qed.


Lemma FloatTensor_rectangular (features : list (list R)) (w : nat) :
  Forall (λ r, length r = w) features → Dataset.FloatTensor features = Ok features.
Proof.
  intros Hall. unfold Dataset.FloatTensor. destruct features as [|r features']; [done|].
  pose proof (Forall_inv Hall) as Hr. cbn beta in Hr.
  assert (forallb (λ r', Nat.eqb (length r') (length r)) (r :: features') = true) as ->;
    [|done].
  apply forallb_forall. intros r' Hin%list_elem_of_In. apply Nat.eqb_eq.
  rewrite Forall_forall in Hall. rewrite (Hall r' Hin). done.
Qed.

Lemma mapM_getitem (self : Dataset.ChurnDataset) (k n : nat) :
  (k + n ≤ length (Dataset.labels self))%nat →
  (length (Dataset.labels self) ≤ length (Dataset.features self))%nat →
  mapM (λ i, Dataset.__getitem__ self (Z.of_nat i)) (seq k n)
  = Ok (take n (drop k (zip (Dataset.features self) (Dataset.labels self)))).
Proof.
  revert k. induction n as [|n IH]; intros k Hk Hlen; [done|].
  cbn [seq mapM]. rewrite IH by lia.
  destruct (lookup_lt_is_Some_2 (Dataset.features self) k) as [f Hf]; [lia|].
  destruct (lookup_lt_is_Some_2 (Dataset.labels self) k) as [l Hl]; [lia|].
  assert (∀ {A} (t : list A) x, t !! k = Some x →
            Dataset.index t (Z.of_nat k) = Ok x) as Hindex.
  { intros A t x Hx. unfold Dataset.index. cbn zeta.
    pose proof (lookup_lt_Some _ _ _ Hx).
    rewrite (decide_False (P:=Z.of_nat k < 0)) by lia. rewrite decide_True by lia.
    by rewrite Nat2Z.id, Hx. }
  unfold Dataset.__getitem__. rewrite (Hindex _ _ _ Hf), (Hindex _ _ _ Hl). cbn.
  rewrite (drop_S (zip (Dataset.features self) (Dataset.labels self)) (f, l) k); [done|].
  rewrite lookup_zip_with, Hf. cbn. by rewrite Hl.
Qed.

Lemma LongTensor_in_range (labels : list Z) :
  Forall (λ l, - 2 ^ 63 ≤ l < 2 ^ 63) labels → Dataset.LongTensor labels = Ok labels.
Proof.
  intros Hall. unfold Dataset.LongTensor.
  assert (forallb (λ l, (- 2 ^ 63 <=? l) && (l <? 2 ^ 63)) labels = true) as ->; [|done].
  apply forallb_forall. intros l Hin%list_elem_of_In.
  rewrite Forall_forall in Hall. specialize (Hall l Hin).
  apply andb_true_intro. split; [apply Z.leb_le|apply Z.ltb_lt]; lia.
Qed.

Lemma LongTensor_out_of_range (labels : list Z) :
  ¬ Forall (λ l, - 2 ^ 63 ≤ l < 2 ^ 63) labels →
  Dataset.LongTensor labels = Raise RuntimeError.
Proof.
  intros Hnot. unfold Dataset.LongTensor.
  destruct (forallb _ labels) eqn:Hall; [|done]. exfalso. apply Hnot.
  apply Forall_forall. intros l Hin%list_elem_of_In.
  rewrite forallb_forall in Hall. specialize (Hall l Hin).
  apply andb_prop in Hall as [?%Z.leb_le ?%Z.ltb_lt]. lia.
Qed.

(** X9. From feature rows of one width: when every label fits a signed
    64-bit integer the constructor returns a dataset whose length is the
    number of labels; with at least as many rows as labels, reading it
    from index 0 to its length gives the rows paired with the labels in
    order (rows beyond the labels are never read); with fewer rows than
    labels the index [len(features)], though below the dataset's length,
    raises [IndexError]. When some label does not fit, the constructor
    raises. *)
Theorem dataset_samples (features : list (list R)) (labels : list Z) (w : nat) :
  Forall (λ r, length r = w) features →
  (Forall (λ l, - 2 ^ 63 ≤ l < 2 ^ 63) labels →
   ∃ self, Dataset.__init__ features labels = Ok self ∧
     Dataset.__len__ self = length labels ∧
     ((length labels ≤ length features)%nat →
      Dataset.samples self = Ok (ChurnDataset features labels)) ∧
     ((length features < length labels)%nat →
      Dataset.__getitem__ self (Z.of_nat (length features)) = Raise IndexError)) ∧
  (¬ Forall (λ l, - 2 ^ 63 ≤ l < 2 ^ 63) labels →
   raises (Dataset.__init__ features labels)).
Proof.
  intros Hall. unfold Dataset.__init__. rewrite (FloatTensor_rectangular features w Hall).
  cbn [mbind result_bind]. split.
  - intros Hrange. rewrite LongTensor_in_range by done.
    cbn. eexists. split; [done|]. split; [done|]. split.
    + intros Hlen. unfold Dataset.samples, Dataset.__len__. cbn.
      rewrite mapM_getitem by (cbn; lia). cbn [Dataset.features Dataset.labels].
      rewrite drop_0. unfold ChurnDataset. f_equal. apply take_ge.
      rewrite length_zip_with. lia.
    + intros Hlen. unfold Dataset.__getitem__. cbn [Dataset.features].
      pose proof (index_in_range features (Z.of_nat (length features))) as Hindex.
      cbn zeta in Hindex. destruct Hindex as [_ ->]; [done|lia].
  - intros Hrange. rewrite LongTensor_out_of_range by done. by exists RuntimeError.
Qed.

Lemma dataset_samples_witness :
  Forall (λ r : list R, length r = 1%nat) [[1%R]; [2%R]] ∧
  Forall (λ l, - 2 ^ 63 ≤ l < 2 ^ 63) [0; 1] ∧
  ∃ self, Dataset.__init__ [[1%R]; [2%R]] [0; 1] = Ok self ∧
    Dataset.samples self = Ok [([1%R], 0); ([2%R], 1)].
Proof.
  assert (Forall (λ r : list R, length r = 1%nat) [[1%R]; [2%R]]) as H
    by (repeat constructor).
  assert (Forall (λ l, - 2 ^ 63 ≤ l < 2 ^ 63) [0; 1]) as Hrange
    by (repeat constructor; lia).
  split; [exact H|]. split; [exact Hrange|].
  destruct (proj1 (dataset_samples [[1%R]; [2%R]] [0; 1] 1 H) Hrange)
    as (self & Hinit & _ & Hsamples & _).
  exists self. split; [exact Hinit|]. apply Hsamples. simpl. lia.
Defined.


(** *** Batching *)

Lemma concat_batches_from {A} (batch_size : nat) (current dataset : list A) :
  concat (batches_from batch_size current dataset) = reverse current ++ dataset.
Proof.
  revert current. induction dataset as [|x dataset IH]; intros current;
    cbn [batches_from].
  - destruct current; [done|]. cbn [concat]. by rewrite !app_nil_r.
  - destruct (Nat.eqb (S (length current)) batch_size).
    + cbn [concat]. rewrite IH, reverse_cons, reverse_nil. cbn [app].
      by rewrite <- app_assoc.
    + rewrite IH, reverse_cons. by rewrite <- app_assoc.
Qed.

Lemma batches_from_unfold {A} (batch_size : nat) (current dataset : list A) :
  (length current < batch_size)%nat →
  batches_from batch_size current dataset =
    match reverse current ++ dataset with
    | [] => []
    | _ => take batch_size (reverse current ++ dataset)
           :: batches_from batch_size [] (drop batch_size (reverse current ++ dataset))
    end.
Proof.
  revert current. induction dataset as [|x dataset IH]; intros current Hlen.
  - cbn [batches_from]. rewrite app_nil_r. destruct current as [|y current]; [done|].
    assert (reverse (y :: current) ≠ []) as Hne.
    { intros E%(f_equal length). rewrite length_reverse in E. done. }
    destruct (reverse (y :: current)) as [|z l] eqn:E; [done|]. rewrite <- E.
    rewrite take_ge, drop_ge by (rewrite length_reverse; lia). done.
  - cbn [batches_from]. destruct (Nat.eqb_spec (S (length current)) batch_size) as [Hbs|Hbs].
    + assert (reverse current ++ x :: dataset = reverse (x :: current) ++ dataset) as ->.
      { rewrite reverse_cons, <- app_assoc. done. }
      assert (length (reverse (x :: current)) = batch_size) as Hrev.
      { rewrite length_reverse. simpl. done. }
      destruct (reverse (x :: current) ++ dataset) as [|z l] eqn:E.
      { apply (f_equal length) in E. rewrite length_app, Hrev in E. simpl in E. lia. }
      rewrite <- E. rewrite take_app_length' by done. rewrite drop_app_length' by done.
      done.
    + rewrite IH by (simpl; lia). rewrite reverse_cons, <- app_assoc. done.
Qed.

Lemma batches_from_lookup {A} (batch_size : nat) (dataset : list A) (i : nat) :
  batch_size ≠ 0%nat →
  batches_from batch_size [] dataset !! i =
    if decide (i * batch_size < length dataset)%nat
    then Some (take batch_size (drop (i * batch_size) dataset))
    else None.
Proof.
  intros Hbs. revert dataset. induction i as [|i IH]; intros dataset.
  - rewrite batches_from_unfold by (simpl; lia). rewrite reverse_nil. cbn [app].
    destruct dataset as [|x dataset]; [done|]. rewrite decide_True by (simpl; lia). done.
  - rewrite batches_from_unfold by (simpl; lia). rewrite reverse_nil. cbn [app].
    destruct dataset as [|x dataset].
    + rewrite decide_False by (simpl; lia). done.
    + cbn [lookup list_lookup]. change (list_lookup i) with (lookup (M:=list (list A)) i).
      rewrite IH. rewrite length_drop, drop_drop.
      replace (batch_size + i * batch_size)%nat with (S i * batch_size)%nat by lia.
      destruct (decide (i * batch_size < length (x :: dataset) - batch_size)%nat);
        [rewrite decide_True by lia|rewrite decide_False by lia]; done.
Qed.

Lemma ceil_div_unique (n b k : nat) :
  b ≠ 0%nat → (n ≤ k * b)%nat → (k = 0 ∨ (k - 1) * b < n)%nat →
  ((n + b - 1) / b = k)%nat.
Proof.
  intros Hb Hle Hgt. symmetry.
  apply (Nat.div_unique _ _ _ (n + b - 1 - b * k)); nia.
Qed.

Lemma length_batches_from {A} (batch_size : nat) (dataset : list A) :
  batch_size ≠ 0%nat →
  length (batches_from batch_size [] dataset)
  = ((length dataset + batch_size - 1) / batch_size)%nat.
Proof.
  intros Hbs. symmetry. apply ceil_div_unique; [done|..].
  - pose proof (batches_from_lookup batch_size dataset
                  (length (batches_from batch_size [] dataset)) Hbs) as Hlook.
    rewrite (lookup_ge_None_2 _ _) in Hlook by lia.
    case_decide; [done|lia].
  - destruct (length (batches_from batch_size [] dataset)) as [|k] eqn:Hlen; [by left|].
    right. pose proof (batches_from_lookup batch_size dataset k Hbs) as Hlook.
    destruct (lookup_lt_is_Some_2 (batches_from batch_size [] dataset) k) as [b Hb]; [lia|].
    rewrite Hb in Hlook. case_decide; [|done]. simpl. lia.
Qed.

Lemma concat_collate_fst (chunks : list (list (list R * Z))) :
  concat (map fst (map collate chunks)) = map fst (concat chunks).
Proof.
  induction chunks as [|b bs IH]; [done|]. cbn. rewrite map_app. by rewrite <- IH.
Qed.

Lemma concat_collate_snd (chunks : list (list (list R * Z))) :
  concat (map snd (map collate chunks)) = map snd (concat chunks).
Proof.
  induction chunks as [|b bs IH]; [done|]. cbn. rewrite map_app. by rewrite <- IH.
Qed.

(** X10. A loader with a positive batch size visits the dataset in some
    order, the dataset's own for the validation loader and a permutation
    drawn per epoch for the training loader ([shuffle=True]), and cuts
    that order into [ceil(len / batch_size)] batches: batch [i] holds the
    samples from position [i * batch_size] of the order up to the next
    [batch_size] (fewer in the last batch). No batch is empty, none is
    larger than the batch size, and the batches put end to end are the
    order visited, hence a permutation of the dataset: every sample is
    in exactly one batch. *)
Theorem data_loader_batches (batch_size : nat) (dataset order : list (list R * Z)) :
  batch_size ≠ 0%nat →
  order ≡ₚ dataset →
  ∃ batches, data_loader batch_size order = Ok batches ∧
    length batches = ((length dataset + batch_size - 1) / batch_size)%nat ∧
    (∀ i, (i < length batches)%nat →
       batches !! i = Some (collate (take batch_size (drop (i * batch_size) order)))) ∧
    Forall (λ b : batch, (1 ≤ length b.2 ≤ batch_size)%nat ∧ length b.1 = length b.2)
           batches ∧
    concat (map fst batches) = map fst order ∧
    concat (map snd batches) = map snd order ∧
    concat (map fst batches) ≡ₚ map fst dataset ∧
    concat (map snd batches) ≡ₚ map snd dataset.
Proof.
  intros Hbs Hperm. unfold data_loader. destruct (Nat.eqb_spec batch_size 0); [done|].
  eexists. split; [done|].
  assert (∀ i, (i < length (batches_from batch_size [] order))%nat →
            (i * batch_size < length order)%nat ∧
            batches_from batch_size [] order !! i
            = Some (take batch_size (drop (i * batch_size) order))) as Hlook.
  { intros i Hi. pose proof (batches_from_lookup batch_size order i Hbs) as Hl.
    destruct (lookup_lt_is_Some_2 _ _ Hi) as [b Hb]. rewrite Hb in Hl.
    case_decide; [|done]. by rewrite Hb. }
  assert (concat (map fst (map collate (batches_from batch_size [] order)))
          = map fst order) as Hfst.
  { rewrite concat_collate_fst, concat_batches_from. by rewrite reverse_nil. }
  assert (concat (map snd (map collate (batches_from batch_size [] order)))
          = map snd order) as Hsnd.
  { rewrite concat_collate_snd, concat_batches_from. by rewrite reverse_nil. }
  split_and!.
  - rewrite length_map, <- (Permutation_length Hperm). by apply length_batches_from.
  - intros i. rewrite length_map. intros [_ Hi]%Hlook.
    by rewrite list_lookup_fmap, Hi.
  - apply Forall_fmap, Forall_lookup. intros i b Hb.
    destruct (Hlook i) as [Hi Hb']; [by eapply lookup_lt_Some|].
    rewrite Hb in Hb'. injection Hb' as ->. cbn.
    rewrite !length_map, length_take, length_drop. lia.
  - exact Hfst.
  - exact Hsnd.
  - rewrite Hfst. by apply fmap_Permutation.
  - rewrite Hsnd. by apply fmap_Permutation.
Qed.

(** Three samples visited last to first, two to a batch. *)
Lemma data_loader_batches_witness :
  2%nat ≠ 0%nat ∧
  reverse (ChurnDataset [[1%R]; [2%R]; [3%R]] [0; 1; 0])
    ≡ₚ ChurnDataset [[1%R]; [2%R]; [3%R]] [0; 1; 0] ∧
  ∃ batches,
    data_loader 2 (reverse (ChurnDataset [[1%R]; [2%R]; [3%R]] [0; 1; 0])) = Ok batches ∧
    length batches = 2%nat.
Proof.
  assert (2 ≠ 0)%nat as H by lia.
  assert (reverse (ChurnDataset [[1%R]; [2%R]; [3%R]] [0; 1; 0])
            ≡ₚ ChurnDataset [[1%R]; [2%R]; [3%R]] [0; 1; 0]) as Hperm
    by apply reverse_Permutation.
  split; [exact H|]. split; [exact Hperm|].
  destruct (data_loader_batches 2 _ _ H Hperm) as (batches & Hb & Hlen & _).
  exists batches. split; [exact Hb|]. rewrite Hlen. reflexivity.
Defined.

End DataFacts.

(** ** Losses, predictions and probabilities *)

Module SoftmaxFacts.
Import Num Net Train Predict NetFacts.
Local Open Scope R_scope.

Lemma total_exp_pos (v : list R) : v ≠ [] → 0 < total (map exp v).
Proof.
  destruct v as [|x v]; [done|]. intros _. cbn [map total foldr].
  fold (total (map exp v)).
  assert (0 <= total (map exp v)).
  { apply ScalerFacts.total_nonneg, Forall_fmap, Forall_forall.
    intros y _. cbn. left. apply exp_pos. }
  pose proof (exp_pos x). lra.
Qed.

Lemma le_total (l : list R) (i : nat) :
  Forall (λ x, 0 <= x) l → (i < length l)%nat → nth i l 0 <= total l.
Proof.
  intros Hall. revert i. induction Hall as [|x l Hx Hall IH]; intros i Hi.
  { simpl in Hi. lia. }
  cbn [total foldr]. fold (total l). pose proof (ScalerFacts.total_nonneg l Hall).
  destruct i as [|i]; simpl; [lra|]. simpl in Hi.
  assert (i < length l)%nat as Hi' by lia. specialize (IH i Hi'). lra.
Qed.

Lemma nth_softmax (v : list R) (i : nat) :
  (i < length v)%nat → nth i (softmax v) 0 = exp (nth i v 0) / total (map exp v).
Proof.
  intros Hi. unfold softmax.
  rewrite (nth_indep _ 0 (exp 0 / total (map exp v))) by (by rewrite length_map).
  exact (map_nth (λ x, exp x / total (map exp v)) v 0 i).
Qed.

Lemma div_le_1 (a b : R) : 0 < b → a <= b → a / b <= 1.
Proof.
  intros Hb Hab. unfold Rdiv. replace 1 with (b * / b) by (field; lra).
  apply Rmult_le_compat_r; [|done]. left. by apply Rinv_0_lt_compat.
Qed.

Lemma div_lt_1 (a b : R) : 0 < b → a < b → a / b < 1.
Proof.
  intros Hb Hab. unfold Rdiv. replace 1 with (b * / b) by (field; lra).
  apply Rmult_lt_compat_r; [|done]. by apply Rinv_0_lt_compat.
Qed.

Lemma ln_nonpos (x : R) : 0 < x → x <= 1 → ln x <= 0.
Proof.
  intros Hx [Hlt| ->].
  - left. rewrite <- ln_1. by apply ln_increasing.
  - rewrite ln_1. lra.
Qed.

Lemma softmax_entry (v : list R) (i : nat) :
  (i < length v)%nat → 0 < nth i (softmax v) 0 <= 1.
Proof.
  intros Hi. rewrite nth_softmax by done.
  assert (v ≠ []) as Hv by (destruct v; [simpl in Hi; lia|done]).
  pose proof (total_exp_pos v Hv) as Hpos.
  pose proof (exp_pos (nth i v 0)) as Hexp.
  assert (exp (nth i v 0) <= total (map exp v)) as Hle.
  { replace (exp (nth i v 0)) with (nth i (map exp v) 0).
    - apply le_total; [|by rewrite length_map].
      apply Forall_fmap, Forall_forall. intros y _. cbn. left. apply exp_pos.
    - rewrite (nth_indep _ 0 (exp 0)) by (by rewrite length_map). apply map_nth. }
  split.
  - by apply Rdiv_lt_0_compat.
  - by apply div_le_1.
Qed.

Lemma softmax_total (v : list R) : v ≠ [] → total (softmax v) = 1.
Proof.
  intros Hv. unfold softmax.
  replace (map (λ x, exp x / total (map exp v)) v)
    with (map (λ y, / total (map exp v) * y) (map exp v)).
  - rewrite ScalerFacts.total_scale. pose proof (total_exp_pos v Hv). field. lra.
  - rewrite map_map. apply map_ext. intros x. unfold Rdiv. ring.
Qed.

Lemma mapM_result_inputs {A B} (P : A → Prop) (f : A → result B) l k :
  (∀ x y, f x = Ok y → P x) → mapM f l = Ok k → Forall P l.
Proof.
  intros Hf Hk. apply (mapM_result_Forall2 (λ x _, P x)) in Hk; [|done].
  induction Hk; constructor; done.
Qed.

Lemma mapM_result_outputs {A B} (Q : B → Prop) (f : A → result B) l k :
  (∀ x y, f x = Ok y → Q y) → mapM f l = Ok k → Forall Q k.
Proof.
  intros Hf Hk. apply (mapM_result_Forall2 (λ _ y, Q y)) in Hk; [|done].
  induction Hk; constructor; done.
Qed.

Lemma nll_nonneg (logits : list R) (label : Z) (loss : R) :
  nll logits label = Ok (Some loss) → 0 <= loss.
Proof.
  unfold nll. case_decide as Hi; [done|]. case_decide as Hl; [|done]. intros [= <-].
  destruct (softmax_entry logits (Z.to_nat label)) as [Hpos Hle]; [lia|].
  pose proof (ln_nonpos _ Hpos Hle). lra.
Qed.

Lemma omap_id_nonneg (losses : list (option R)) :
  Forall (λ o, ∀ y, o = Some y → 0 <= y) losses →
  Forall (λ y, 0 <= y) (omap (λ loss : option R, loss) losses).
Proof.
  induction 1 as [|[y|] losses Hy _ IH]; cbn; [done| |done].
  constructor; [by apply Hy|done].
Qed.

Lemma mean_nonneg (l : list R) : Forall (λ y, 0 <= y) l → 0 <= mean l.
Proof.
  intros Hall. unfold mean. apply Rmult_le_pos; [by apply ScalerFacts.total_nonneg|].
  destruct l as [|y l].
  - simpl. rewrite Rinv_0. lra.
  - left. apply Rinv_0_lt_compat, lt_0_INR. simpl. lia.
Qed.

(** X11. On a batch of logit rows where at least one label is not the
    one the loss leaves out (-100), the cross entropy, when it is
    returned, is not negative; and it is returned only when there is one
    row per label and every label is either left out or an index into its
    row. *)
Theorem criterion_is_nonnegative (m : list (list R)) (labels : list Z) (loss : R) :
  (∃ label, label ∈ labels ∧ label ≠ ignore_index) →
  criterion (T2 m) labels = Ok loss →
  0 <= loss ∧
  length m = length labels ∧
  Forall2 (λ row label,
             label = ignore_index ∨ (0 ≤ label < Z.of_nat (length row))%Z) m labels.
Proof.
  intros _. unfold criterion.
  destruct (Nat.eqb_spec (length m) (length labels)) as [Hlen|]; [|done].
  intros (losses & Hlosses & [= <-])%result_bind_ok. split_and!; [|done|].
  - apply mean_nonneg, omap_id_nonneg.
    apply (mapM_result_outputs (λ o, ∀ y, o = Some y → 0 <= y)) in Hlosses; [done|].
    intros [row label] o Ho y ->. by eapply nll_nonneg.
  - apply (mapM_result_inputs
             (λ p, p.2 = ignore_index ∨ (0 ≤ p.2 < Z.of_nat (length p.1))%Z)) in Hlosses.
    + apply Forall2_same_length_lookup_2; [done|]. intros i row label Hrow Hlabel.
      rewrite Forall_lookup in Hlosses. apply (Hlosses i (row, label)).
      rewrite lookup_zip_with, Hrow. cbn. by rewrite Hlabel.
    + intros [row label] y. unfold nll. cbn.
      case_decide; [by left|]. case_decide; [by right|done].
Qed.

(** Two rows, the second left out. *)
Lemma criterion_is_nonnegative_witness :
  (∃ label, label ∈ [0%Z; ignore_index] ∧ label ≠ ignore_index) ∧
  ∃ loss, criterion (T2 [[0; 0]; [1; 1]]) [0%Z; ignore_index] = Ok loss ∧ 0 <= loss.
Proof.
  assert (∃ label, label ∈ [0%Z; ignore_index] ∧ label ≠ ignore_index) as H.
  { exists 0%Z. split; [left|discriminate]. }
  split; [exact H|]. eexists. split; [reflexivity|].
  exact (proj1 (criterion_is_nonnegative [[0; 0]; [1; 1]] [0%Z; ignore_index] _ H eq_refl)).
Defined.

(** *** [torch.max] along a row *)

Lemma argmax_from_spec (pre l : list R) (best : R) (best_index : nat) :
  (best_index < length pre)%nat →
  nth best_index pre 0 = best →
  (∀ j, (j < length pre)%nat → nth j pre 0 <= best) →
  (∀ j, (j < best_index)%nat → nth j pre 0 < best) →
  let k := argmax_from best best_index (length pre) l in
  (k < length (pre ++ l))%nat ∧
  (∀ j, (j < length (pre ++ l))%nat → nth j (pre ++ l) 0 <= nth k (pre ++ l) 0) ∧
  (∀ j, (j < k)%nat → nth j (pre ++ l) 0 < nth k (pre ++ l) 0).
Proof.
  revert pre best best_index. induction l as [|x l IH];
    intros pre best best_index Hbi Hbest Hmax Hfirst; cbn zeta.
  - cbn [argmax_from]. rewrite app_nil_r, Hbest. done.
  - cbn [argmax_from].
    replace (pre ++ x :: l) with ((pre ++ [x]) ++ l) by (by rewrite <- app_assoc).
    replace (S (length pre)) with (length (pre ++ [x])) by (rewrite length_app; simpl; lia).
    assert (∀ j, (j < length pre)%nat → nth j (pre ++ [x]) 0 = nth j pre 0) as Hpre.
    { intros j Hj. by apply app_nth1. }
    assert (nth (length pre) (pre ++ [x]) 0 = x) as Hx.
    { rewrite app_nth2 by lia. by rewrite Nat.sub_diag. }
    destruct (Rlt_dec best x) as [Hlt|Hge].
    + apply IH.
      * rewrite length_app. simpl. lia.
      * done.
      * intros j. rewrite length_app. simpl. intros Hj.
        destruct (decide (j = length pre)) as [->|]; [rewrite Hx; lra|].
        rewrite Hpre by lia. assert (j < length pre)%nat as Hj' by lia.
        specialize (Hmax j Hj'). lra.
      * intros j Hj. rewrite Hpre by lia. specialize (Hmax j Hj). lra.
    + apply IH.
      * rewrite length_app. simpl. lia.
      * by rewrite Hpre.
      * intros j. rewrite length_app. simpl. intros Hj.
        destruct (decide (j = length pre)) as [->|]; [rewrite Hx; lra|].
        rewrite Hpre by lia. apply Hmax. lia.
      * intros j Hj. rewrite Hpre by lia. by apply Hfirst.
Qed.

Lemma argmax_spec (row : list R) :
  row ≠ [] →
  (argmax row < length row)%nat ∧
  (∀ j, (j < length row)%nat → nth j row 0 <= nth (argmax row) row 0) ∧
  (∀ j, (j < argmax row)%nat → nth j row 0 < nth (argmax row) row 0).
Proof.
  destruct row as [|x l]; [done|]. intros _.
  apply (argmax_from_spec [x] l x 0); simpl.
  - lia.
  - done.
  - intros [|j] Hj; [lra|lia].
  - intros j Hj. lia.
Qed.

(** X12. The class [torch.max(outputs, 1)] predicts for a row of logits
    is the position of a largest logit of the row, the first such when
    several tie; so every predicted class is a valid index of its row. *)
Theorem predicted_is_the_first_largest_logit (m : list (list R)) :
  Forall (λ row, row ≠ []) m →
  ∃ classes, predicted (T2 m) = Ok classes ∧
    Forall2 (λ row class, ∃ k, class = Z.of_nat k ∧ (k < length row)%nat ∧
               (∀ j, (j < length row)%nat → nth j row 0 <= nth k row 0) ∧
               (∀ j, (j < k)%nat → nth j row 0 < nth k row 0)) m classes.
Proof.
  intros Hall. eexists. split; [reflexivity|].
  apply Forall2_fmap_r, Forall_Forall2_diag.
  eapply Forall_impl; [exact Hall|]. intros row Hrow. cbn beta.
  exists (argmax row). split; [done|]. by apply argmax_spec.
Qed.

Lemma predicted_is_the_first_largest_logit_witness :
  Forall (λ row : list R, row ≠ []) [[1; 2]] ∧
  ∃ classes, predicted (T2 [[1; 2]]) = Ok classes ∧ length classes = 1%nat.
Proof.
  assert (Forall (λ row : list R, row ≠ []) [[1; 2]]) as H by (by repeat constructor).
  split; [exact H|].
  destruct (predicted_is_the_first_largest_logit [[1; 2]] H) as (classes & Hc & Hall).
  exists classes. split; [exact Hc|].
  apply Forall2_length in Hall. symmetry. exact Hall.
Defined.

(** *** The tail of [predict_churn] *)

Lemma length_softmax (v : list R) : length (softmax v) = length v.
Proof. unfold softmax. by rewrite length_map. Qed.

Lemma select_1_softmax (m : list (list R)) :
  Forall (λ row, (2 ≤ length row)%nat) m →
  softmax_dim1 (T2 m) ≫= select_1 = Ok (T1 (map (λ row, nth 1 (softmax row) 0) m)).
Proof.
  intros Hall. unfold softmax_dim1. cbn [mbind result_bind]. unfold select_1.
  assert (forallb (λ r, Nat.leb 2 (length r)) (map softmax m) = true) as ->.
  { apply forallb_forall. intros r' Hin%list_elem_of_In.
    apply list_elem_of_fmap in Hin as (row & -> & Hrow). apply Nat.leb_le.
    rewrite length_softmax. rewrite Forall_forall in Hall. by apply Hall. }
  by rewrite map_map.
Qed.

Lemma second_of_softmax (row : list R) :
  (2 ≤ length row)%nat → 0 < nth 1 (softmax row) 0 < 1.
Proof.
  intros Hlen. rewrite nth_softmax by lia.
  destruct row as [|a [|b rest]]; [simpl in Hlen; lia..|].
  cbn [nth map total foldr]. fold (total (map exp rest)).
  assert (0 <= total (map exp rest)).
  { apply ScalerFacts.total_nonneg, Forall_fmap, Forall_forall.
    intros y _. cbn. left. apply exp_pos. }
  pose proof (exp_pos a). pose proof (exp_pos b). split.
  - apply Rdiv_lt_0_compat; lra.
  - apply div_lt_1; lra.
Qed.

(** X13. What [predict_churn] does with a batch of logit rows: when
    every row has at least two logits, [softmax(dim=1)] followed by
    [[:, 1]] returns one number per row, each strictly between 0 and 1;
    when some row is shorter the selection raises [IndexError]. *)
Theorem churn_probabilities (m : list (list R)) :
  (Forall (λ row, (2 ≤ length row)%nat) m →
   ∃ ps, softmax_dim1 (T2 m) ≫= select_1 = Ok (T1 ps) ∧
     length ps = length m ∧ Forall (λ p, 0 < p < 1) ps) ∧
  (¬ Forall (λ row, (2 ≤ length row)%nat) m →
   softmax_dim1 (T2 m) ≫= select_1 = Raise IndexError).
Proof.
  split.
  - intros Hall. rewrite select_1_softmax by done. eexists. split; [done|].
    split; [by rewrite length_map|].
    apply Forall_fmap. eapply Forall_impl; [exact Hall|]. intros row Hrow.
    by apply second_of_softmax.
  - intros Hnot. unfold softmax_dim1. cbn [mbind result_bind]. unfold select_1.
    destruct (forallb _ _) eqn:Hall; [|done]. exfalso. apply Hnot.
    apply Forall_forall. intros row Hrow.
    rewrite forallb_forall in Hall.
    specialize (Hall (softmax row)). rewrite Nat.leb_le in Hall.
    rewrite length_softmax in Hall. apply Hall.
    apply list_elem_of_In, list_elem_of_fmap. by exists row.
Qed.

Lemma above_one_half (x y : R) :
  0 < x → 0 < y → 1 / 2 < y / (x + (y + 0)) ↔ x < y.
Proof.
  intros Hx Hy.
  replace (y / (x + (y + 0))) with (1 / 2 + (y - x) * / (2 * (x + y))) by (field; lra).
  assert (0 < / (2 * (x + y))) as Hc by (apply Rinv_0_lt_compat; lra).
  split; intros H; nra.
Qed.

(** X14. On rows of two logits the class the validation pass predicts
    and the probability [predict_churn] computes agree: the predicted
    class is 1 exactly when the churn probability is above one half (at
    one half, equal logits, the prediction is class 0). *)
Theorem predicted_class_agrees_with_probability (m : list (list R)) :
  Forall (λ row, length row = 2%nat) m →
  ∃ classes ps,
    predicted (T2 m) = Ok classes ∧
    softmax_dim1 (T2 m) ≫= select_1 = Ok (T1 ps) ∧
    Forall2 (λ class p, (class = 0%Z ∨ class = 1%Z) ∧ (class = 1%Z ↔ 1 / 2 < p))
            classes ps.
Proof.
  intros Hall. eexists _, _. split; [reflexivity|]. split.
  - apply select_1_softmax. eapply Forall_impl; [exact Hall|]. intros row ->. done.
  - apply Forall2_fmap, Forall_Forall2_diag.
    eapply Forall_impl; [exact Hall|]. intros row Hrow. cbn beta.
    destruct row as [|a [|b [|? ?]]]; try done.
    rewrite nth_softmax by (simpl; lia).
    cbn [argmax argmax_from nth map total foldr].
    pose proof (exp_pos a). pose proof (exp_pos b).
    rewrite above_one_half by done.
    destruct (Rlt_dec a b) as [Hlt|Hge]; cbn.
    + split; [by right|]. split; [|done]. intros _. by apply exp_increasing.
    + split; [by left|]. split; [done|]. intros Hab%exp_lt_inv. done.
Qed.

Lemma predicted_class_agrees_with_probability_witness :
  Forall (λ row : list R, length row = 2%nat) [[0; 1]] ∧
  ∃ classes ps, predicted (T2 [[0; 1]]) = Ok classes ∧
    softmax_dim1 (T2 [[0; 1]]) ≫= select_1 = Ok (T1 ps).
Proof.
  assert (Forall (λ row : list R, length row = 2%nat) [[0; 1]]) as H
    by (by repeat constructor).
  split; [exact H|].
  destruct (predicted_class_agrees_with_probability [[0; 1]] H)
    as (classes & ps & Hc & Hp & _).
  exists classes, ps. split; [exact Hc|exact Hp].
Defined.

End SoftmaxFacts.

(** ** More on the training loop *)

Module LoopFacts.
Import Num Net Train NetFacts TrainFacts SoftmaxFacts.
Local Open Scope R_scope.

Section more_loop_facts.
Context {T O : Type}.
Variable apply_model : gmap string T → bool → tensor → gen tensor.
Variable backward_step : O → gmap string T → batch → rng → O * gmap string T.
Variable parameters : gmap string loc.
Variable train_loader : nat → list batch.
Variable val_loader : list batch.

#[local] Abbreviation state := (@state T O).
#[local] Abbreviation train_pass := (train_pass apply_model backward_step parameters).
#[local] Abbreviation val_pass := (val_pass apply_model parameters).
#[local] Abbreviation epoch_body :=
  (epoch_body apply_model backward_step parameters train_loader val_loader).
#[local] Abbreviation epochs_from :=
  (epochs_from apply_model backward_step parameters train_loader val_loader).
#[local] Abbreviation training_loop :=
  (training_loop apply_model backward_step parameters train_loader val_loader).
#[local] Abbreviation allocated := (allocated (T:=T) parameters).

Lemma epoch_body_snapshot epoch best (s : state) best' s' :
  best.1 = None ∨ best.2 = Some (dict_copy (state_dict parameters)) →
  epoch_body epoch best s = Ok (best', s') →
  best'.2 = Some (dict_copy (state_dict parameters)).
Proof.
  intros Hbest (v & _ & -> & _)%epoch_body_record.
  destruct Hbest as [->|Hsome]; [done|]. by destruct (improves v best.1).
Qed.

Lemma epochs_from_snapshot remaining epoch best (s : state) best' s' :
  best.2 = Some (dict_copy (state_dict parameters)) →
  epochs_from remaining epoch best s = Ok (best', s') →
  best'.2 = Some (dict_copy (state_dict parameters)).
Proof.
  revert epoch best s. induction remaining as [|n IH]; intros epoch best s Hbest; simpl.
  - by intros [= <- <-].
  - intros ([best1 s1] & Hbody & Hrest)%result_bind_ok.
    eapply IH; [|exact Hrest]. eapply epoch_body_snapshot; [by right|exact Hbody].
Qed.


End more_loop_facts.


(** X18. An empty first table stops [train_churn_model] at the scaler:
    there is no client, the feature matrix has no row, and
    [fit_transform] raises [ValueError], whatever the second table, the
    settings and the library pieces. *)
Theorem train_churn_model_of_no_clients {O : Type}
    (train_test_split :
       Scaler.matrix → list Z →
       result (Scaler.matrix * Scaler.matrix * list Z * list Z))
    (shuffle : nat → list (list R * Z) → list (list R * Z))
    (new_model : nat → ChurnTransformer) (adam : R → O)
    (backward_step : O → gmap string tensor → batch → rng → O * gmap string tensor)
    (seed : rng) (df2 : Frame.frame) (epochs batch_size : nat) (learning_rate : R) :
  Frame.prepare_data [] df2 = ([], []) ∧
  train_churn_model train_test_split shuffle new_model adam backward_step seed
    [] df2 epochs batch_size learning_rate = Raise ValueError.
Proof.
  assert (Frame.prepare_data [] df2 = ([], [])) as Hprep.
  { unfold Frame.prepare_data, Frame.iteration_order.
    change (Frame.clients []) with (∅ : gset Z). by rewrite elements_empty. }
  split; [done|]. unfold train_churn_model. by rewrite Hprep.
Qed.

End LoopFacts.

(** ** The constructor and the shapes [forward] accepts *)

Module ShapeFacts.
Import Num Net NetFacts Build.
Local Open Scope R_scope.

(** Shapes through [mapM] *)
Lemma mapM_shape {A B SA SB} (sa : A → SA) (sb : B → SB) (f : A → result B)
    (l : list A) (a : SA) (b : SB) (n : nat) :
  (∀ x, sa x = a → ∃ y, f x = Ok y ∧ sb y = b) →
  map sa l = replicate n a →
  ∃ k, mapM f l = Ok k ∧ map sb k = replicate n b.
Proof.
  intros Hf. revert n. induction l as [|x l IH]; intros [|n]; try done.
  - intros _. by exists [].
  - cbn [map replicate]. intros [= Hx Hl].
    destruct (Hf x Hx) as (y & Hy & Hby). destruct (IH n Hl) as (k & Hk & Hbk).
    exists (y :: k). cbn [mapM]. rewrite Hy. cbn. rewrite Hk. cbn.
    split; [done|]. by rewrite Hby, Hbk.
Qed.

Lemma mapM_gen_total {A B} (f : A → gen B) :
  (∀ x g, ∃ y g', f x g = Ok (y, g')) →
  ∀ l g, ∃ k g', mapM f l g = Ok (k, g').
Proof.
  intros Hf l. induction l as [|x l IH]; intros g.
  - by exists [], g.
  - destruct (Hf x g) as (y & g1 & Hy). destruct (IH g1) as (k & g2 & Hk).
    exists (y :: k), g2. cbn [mapM].
    erewrite gen_bind_eq by exact Hy. erewrite gen_bind_eq by exact Hk. done.
Qed.

Lemma dropout_total p training x g : ∃ y g', dropout p training x g = Ok (y, g').
Proof. unfold dropout. destruct training; eauto. Qed.

Lemma dims_mapM_gen {B} (f : R → gen B) (x : list (list (list R))) g
    (y : list (list (list B))) g' :
  mapM (mapM (mapM f)) x g = Ok (y, g') → map (map length) y = dims x.
Proof.
  intros H. unfold dims.
  apply (mapM_gen_Forall2 (λ s t, map length t = map length s)) in H.
  - induction H; simpl; congruence.
  - intros s t g1 g2 Hst. by apply lengths_mapM_gen in Hst.
Qed.

Lemma dropout3_ok p training (x : list (list (list R))) g :
  ∃ y g', mapM (mapM (mapM (dropout p training))) x g = Ok (y, g') ∧ dims y = dims x.
Proof.
  destruct (mapM_gen_total (mapM (mapM (dropout p training)))
              (mapM_gen_total _ (mapM_gen_total _ (dropout_total p training))) x g)
    as (y & g' & Hy).
  exists y, g'. split; [done|]. by eapply dims_mapM_gen.
Qed.

(** The layers on rows of the right width *)
Lemma linear_vec_ok (l : Linear) (x : list R) :
  linear_ok l → length x = in_features l →
  ∃ y, linear_vec l x = Ok y ∧ length y = out_features l.
Proof.
  intros [Hw Hb] Hx. unfold linear_vec. rewrite Hx, Nat.eqb_refl.
  eexists. split; [done|]. rewrite length_zip_with. lia.
Qed.

Lemma layer_norm_ok (n : LayerNorm) (x : list R) :
  norm_ok n → length x = normalized_shape n →
  ∃ y, layer_norm n x = Ok y ∧ length y = normalized_shape n.
Proof.
  intros [Hw Hb] Hx. unfold layer_norm. rewrite Hx, Nat.eqb_refl.
  eexists. split; [done|]. rewrite length_zip_with, length_zip. lia.
Qed.

Lemma linear3_ok (l : Linear) (x : list (list (list R))) (n s : nat) :
  linear_ok l → dims x = cube n s (in_features l) →
  ∃ y, mapM (mapM (linear_vec l)) x = Ok y ∧ dims y = cube n s (out_features l).
Proof.
  intros Hl. apply (mapM_shape (map length) (map length)).
  intros q. apply (mapM_shape length length). intros r. by apply linear_vec_ok.
Qed.

Lemma norm3_ok (ln : LayerNorm) (x : list (list (list R))) (n s : nat) :
  norm_ok ln → dims x = cube n s (normalized_shape ln) →
  ∃ y, mapM (mapM (layer_norm ln)) x = Ok y ∧ dims y = cube n s (normalized_shape ln).
Proof.
  intros Hl. apply (mapM_shape (map length) (map length)).
  intros q. apply (mapM_shape length length). intros r. by apply layer_norm_ok.
Qed.

Lemma map_shape {A B SA SB} (sa : A → SA) (sb : B → SB) (f : A → B)
    (l : list A) (a : SA) (b : SB) (n : nat) :
  (∀ x, sa x = a → sb (f x) = b) →
  map sa l = replicate n a → map sb (map f l) = replicate n b.
Proof.
  intros Hf. revert n. induction l as [|x l IH]; intros [|n]; try done.
  cbn [map replicate]. intros [= Hx Hl]. by rewrite (Hf x Hx), (IH n Hl).
Qed.

Lemma zip_with_shape {A B C SA SB SC} (sa : A → SA) (sb : B → SB) (sc : C → SC)
    (F : A → B → C) (l : list A) (k : list B) (a : SA) (b : SB) (c : SC) (n : nat) :
  (∀ x y, sa x = a → sb y = b → sc (F x y) = c) →
  map sa l = replicate n a → map sb k = replicate n b →
  map sc (zip_with F l k) = replicate n c.
Proof.
  intros HF. revert k n. induction l as [|x l IH]; intros [|y k] [|n]; try done.
  cbn [map replicate zip_with]. intros [= Hx Hl] [= Hy Hk].
  by rewrite (HF x y Hx Hy), (IH k n Hl Hk).
Qed.

Lemma add3_ok (x y : list (list (list R))) (n s d : nat) :
  dims x = cube n s d → dims y = cube n s d → dims (add3 x y) = cube n s d.
Proof.
  apply (zip_with_shape (map length) (map length) (map length)).
  intros q1 q2. apply (zip_with_shape length length length).
  intros r1 r2 H1 H2. rewrite length_zip_with. lia.
Qed.

Lemma relu3_ok (x : list (list (list R))) : dims (map (map (map relu)) x) = dims x.
Proof.
  unfold dims. rewrite map_map. apply map_ext. intros q.
  rewrite map_map. apply map_ext. intros r. apply length_map.
Qed.

Lemma length_of_cube {A} (x : list (list (list A))) (n : nat) (d : list nat) :
  map (map length) x = replicate n d → length x = n.
Proof. intros H%(f_equal length). by rewrite length_map, length_replicate in H. Qed.

Lemma length_heads {A} (f : nat → list A) (heads : list nat) (k : nat) :
  (∀ h, length (f h) = k) → length (concat (map f heads)) = (k * length heads)%nat.
Proof.
  intros Hf. induction heads as [|h heads IH]; simpl; [lia|].
  rewrite length_app, Hf, IH. lia.
Qed.

Lemma map_const_replicate {A} (f : nat → A) (c : A) (start n : nat) :
  (∀ t, f t = c) → map f (seq start n) = replicate n c.
Proof.
  intros Hf. revert start. induction n as [|n IH]; intros start; [done|].
  cbn [seq map replicate]. by rewrite Hf, IH.
Qed.

Lemma attention_output_shape (a : MultiheadAttention)
    (w : list (list (list (list R)))) (v : list (list (list R))) (n s : nat) :
  (head_dim a * num_heads a = embed_dim a)%nat →
  length w = n → map length v = replicate n s →
  dims (zip_with (λ wn vn,
          map (λ t, concat (map (λ h, attend a h (nth t (nth h wn []) []) vn)
                                (seq 0 (num_heads a))))
              (seq 0 (length vn))) w v)
  = cube n s (embed_dim a).
Proof.
  intros Hheads. revert w v. induction n as [|n IH]; intros [|wn w] [|vn v]; try done.
  cbn [length map replicate zip_with]. intros [= Hw] [= Hvn Hv].
  unfold dims, cube in *. cbn [map replicate]. rewrite (IH w v Hw Hv). f_equal.
  rewrite map_map, Hvn. apply map_const_replicate. intros t.
  rewrite (length_heads _ _ (head_dim a)).
  - by rewrite length_seq.
  - intros h. unfold attend. by rewrite length_map, length_seq.
Qed.

Lemma length_slice (start len : nat) (v : list R) :
  (start + len ≤ length v)%nat → length (slice start len v) = len.
Proof. intros H. unfold slice. rewrite length_take, length_drop. lia. Qed.

Lemma self_attention_ok (a : MultiheadAttention) training
    (x : list (list (list R))) (n s : nat) g :
  attention_ok a → dims x = cube n s (embed_dim a) →
  ∃ y g', self_attention a training x g = Ok (y, g') ∧ dims y = cube n s (embed_dim a).
Proof.
  intros (Hheads & Hin & Hin_i & Hin_o & Hout & Hout_i & Hout_o) Hx.
  unfold self_attention.
  destruct (linear3_ok (in_proj a) x n s Hin) as (qkv & Hqkv & Hdq);
    [by rewrite Hin_i|].
  rewrite Hin_o in Hdq.
  erewrite gen_bind_eq by (apply lift_eq; exact Hqkv).
  match goal with |- context [mapM (mapM (mapM (mapM ?f))) ?w] =>
    destruct (mapM_gen_total _
                (mapM_gen_total _ (mapM_gen_total _ (mapM_gen_total f
                   (dropout_total (attn_dropout a) training)))) w g)
      as (w' & g' & Hw');
    pose proof (mapM_gen_length _ _ _ _ _ Hw') as Hlen
  end.
  erewrite gen_bind_eq by exact Hw'.
  pose proof (length_of_cube qkv n _ Hdq) as Hnq.
  rewrite length_zip_with, !length_map, Hnq, Nat.min_id in Hlen.
  match goal with |- context [lift (mapM _ ?o)] =>
    destruct (linear3_ok (out_proj a) o n s Hout) as (y & Hy & Hdy)
  end.
  - rewrite Hout_i. apply attention_output_shape; [done..|].
    apply (map_shape (map length) length _ _ (replicate s (3 * embed_dim a)%nat));
      [|exact Hdq].
    intros q Hq. rewrite length_map. apply (f_equal length) in Hq.
    by rewrite length_map, length_replicate in Hq.
  - exists y, g'. rewrite Hout_o in Hdy. split; [|done]. by apply lift_eq.
Qed.

Lemma encoder_layer_ok (l : TransformerEncoderLayer) training
    (x : list (list (list R))) (n s d : nat) g :
  layer_ok d l → dims x = cube n s d →
  ∃ y g', encoder_layer l training x g = Ok (y, g') ∧ dims y = cube n s d.
Proof.
  intros (Hattn & Hd & Hl1 & Hl1_i & Hl2 & Hl2_i & Hl2_o & Hn1 & Hn1_d & Hn2 & Hn2_d) Hx.
  unfold encoder_layer. subst d.
  destruct (self_attention_ok (self_attn l) training x n s g Hattn Hx)
    as (a & g1 & Ha & Hda).
  erewrite gen_bind_eq by exact Ha.
  destruct (dropout3_ok (layer_dropout l) training a g1) as (a' & g2 & Ha' & Hda').
  erewrite gen_bind_eq by exact Ha'. rewrite Hda in Hda'.
  destruct (norm3_ok (norm1 l) (add3 x a') n s Hn1) as (x1 & Hx1 & Hdx1).
  { rewrite Hn1_d. by apply add3_ok. }
  erewrite gen_bind_eq by (apply lift_eq; exact Hx1). rewrite Hn1_d in Hdx1.
  destruct (linear3_ok (linear1 l) x1 n s Hl1) as (h & Hh & Hdh); [by rewrite Hl1_i|].
  erewrite gen_bind_eq by (apply lift_eq; exact Hh).
  destruct (dropout3_ok (layer_dropout l) training (map (map (map relu)) h) g2)
    as (h' & g3 & Hh' & Hdh').
  erewrite gen_bind_eq by exact Hh'. rewrite relu3_ok, Hdh in Hdh'.
  destruct (linear3_ok (linear2 l) h' n s Hl2) as (f & Hf & Hdf); [by rewrite Hl2_i|].
  erewrite gen_bind_eq by (apply lift_eq; exact Hf). rewrite Hl2_o in Hdf.
  destruct (dropout3_ok (layer_dropout l) training f g3) as (f' & g4 & Hf' & Hdf').
  erewrite gen_bind_eq by exact Hf'. rewrite Hdf in Hdf'.
  destruct (norm3_ok (norm2 l) (add3 x1 f') n s Hn2) as (y & Hy & Hdy).
  { rewrite Hn2_d. by apply add3_ok. }
  exists y, g4. rewrite Hn2_d in Hdy. split; [|done]. by apply lift_eq.
Qed.

Lemma encoder_ok (layers : list TransformerEncoderLayer) training
    (x : list (list (list R))) (n s d : nat) g :
  Forall (layer_ok d) layers → dims x = cube n s d →
  ∃ y g', encoder layers training x g = Ok (y, g') ∧ dims y = cube n s d.
Proof.
  intros Hall. revert x g. induction Hall as [|l layers Hl _ IH]; intros x g Hx.
  - by exists x, g.
  - destruct (encoder_layer_ok l training x n s d g Hl Hx) as (x1 & g1 & Hx1 & Hd1).
    destruct (IH x1 g1 Hd1) as (y & g2 & Hy & Hdy).
    exists y, g2. cbn [encoder]. erewrite gen_bind_eq by exact Hx1. done.
Qed.

Lemma mean_dim1_shape (c : list (list (list R))) (n s d : nat) :
  (1 ≤ s)%nat → dims c = cube n s d →
  ∃ m, mean_dim1 (T3 c) = Ok (T2 m) ∧ map length m = replicate n d.
Proof.
  intros Hs Hc. eexists. split; [reflexivity|].
  apply (map_shape (map length) length _ _ (replicate s d)); [|exact Hc].
  intros q Hq. rewrite length_map, length_seq.
  destruct s as [|s]; [lia|]. destruct q as [|r q]; [done|].
  cbn in Hq. injection Hq as Hr _. exact Hr.
Qed.

Lemma forward_well_shaped (net : ChurnTransformer) (c : list (list (list R)))
    (n s : nat) g :
  well_shaped net → (1 ≤ s)%nat →
  dims c = cube n s (in_features (embedding net)) →
  ∃ m g', forward net (T3 c) g = Ok (T2 m, g') ∧
    map length m = replicate n (out_features (classifier net)).
Proof.
  intros (Hemb & Hlayers & Hcls & Hcls_i) Hs Hc. unfold forward.
  destruct (linear3_ok (embedding net) c n s Hemb Hc) as (x1 & Hx1 & Hd1).
  erewrite gen_bind_eq; cycle 1.
  { apply lift_eq. cbn [linear]. rewrite Hx1. reflexivity. }
  destruct (encoder_ok (transformer net) (training net) x1 n s _ g Hlayers Hd1)
    as (x2 & g' & Hx2 & Hd2).
  erewrite gen_bind_eq; cycle 1.
  { cbn [transformer_encoder]. erewrite gen_bind_eq by exact Hx2. reflexivity. }
  destruct (mean_dim1_shape x2 n s _ Hs Hd2) as (m & Hm & Hdm).
  erewrite gen_bind_eq by (apply lift_eq; exact Hm).
  destruct (mapM_shape length length (linear_vec (classifier net)) m
              (in_features (classifier net)) (out_features (classifier net)) n)
    as (y & Hy & Hdy).
  - intros r. by apply linear_vec_ok.
  - by rewrite Hcls_i.
  - exists y, g'. split; [|done]. apply lift_eq. cbn [linear]. by rewrite Hy.
Qed.

(** *** What the constructor builds *)

Lemma new_linear_ok initial name i o : linear_ok (new_linear initial name i o).
Proof.
  unfold linear_ok, new_linear, matrix_of, vector_of. cbn.
  by rewrite !length_map, !length_seq.
Qed.

Lemma new_norm_ok initial name d : norm_ok (new_norm initial name d).
Proof.
  unfold norm_ok, new_norm, vector_of. cbn. by rewrite !length_map, !length_seq.
Qed.

Lemma new_attention_returns initial name (embed_dim num_heads : nat) (p : R) a :
  new_attention initial name embed_dim num_heads p = Ok a →
  embed_dim ≠ 0%nat ∧ num_heads ≠ 0%nat ∧ (embed_dim mod num_heads = 0)%nat ∧
  attention_ok a ∧ Net.embed_dim a = embed_dim.
Proof.
  unfold new_attention.
  destruct (Nat.eqb_spec embed_dim 0) as [|He]; [done|].
  destruct (Nat.eqb_spec num_heads 0) as [|Hh]; [done|]. cbn [orb].
  destruct (Nat.eqb_spec (embed_dim / num_heads * num_heads) embed_dim) as [Hdiv|];
    [|done].
  cbn [negb]. intros [= <-]. split_and!; [done..| | |done].
  - pose proof (Nat.div_mod_eq embed_dim num_heads). lia.
  - unfold attention_ok, head_dim, linear_ok, new_linear, matrix_of, vector_of.
    cbn [Net.in_proj Net.out_proj Net.in_features Net.out_features Net.weight Net.bias
         Net.embed_dim Net.num_heads].
    rewrite !length_map, !length_seq. done.
Qed.

Lemma new_attention_ok initial name (embed_dim num_heads : nat) (p : R) :
  embed_dim ≠ 0%nat → num_heads ≠ 0%nat → (embed_dim mod num_heads = 0)%nat →
  ∃ a, new_attention initial name embed_dim num_heads p = Ok a.
Proof.
  intros He Hh Hmod. unfold new_attention.
  destruct (Nat.eqb_spec embed_dim 0); [done|].
  destruct (Nat.eqb_spec num_heads 0); [done|]. cbn [orb].
  destruct (Nat.eqb_spec (embed_dim / num_heads * num_heads) embed_dim) as [|Hdiv].
  - cbn [negb]. eauto.
  - pose proof (Nat.div_mod_eq embed_dim num_heads). lia.
Qed.

Lemma new_dropout_returns (p q : R) : new_dropout p = Ok q ↔ 0 <= p <= 1 ∧ q = p.
Proof.
  unfold new_dropout. destruct (Rlt_dec p 0); [split; [done|lra]|].
  destruct (Rlt_dec 1 p); [split; [done|lra]|].
  split; [intros [= <-]; lra|by intros [_ ->]].
Qed.

Lemma new_encoder_layer_returns initial name (d nhead ff : nat) (p : R) l :
  new_encoder_layer initial name d nhead ff p = Ok l →
  d ≠ 0%nat ∧ nhead ≠ 0%nat ∧ (d mod nhead = 0)%nat ∧ 0 <= p <= 1 ∧ layer_ok d l.
Proof.
  unfold new_encoder_layer.
  intros (a & (Hd & Hh & Hmod & Ha & Hda)%new_attention_returns &
          (q & [Hp ->]%new_dropout_returns & [= <-])%result_bind_ok)%result_bind_ok.
  split_and!; [done|done|done|lra|lra|].
  unfold layer_ok.
  cbn [Net.self_attn Net.linear1 Net.linear2 Net.norm1 Net.norm2].
  split_and!; try done; try apply new_linear_ok; try apply new_norm_ok.
Qed.

Lemma init_returns initial (input_dim num_heads dim_feedforward num_layers : nat)
    (p : R) net :
  __init__ initial input_dim num_heads dim_feedforward num_layers p = Ok net →
  (dim_feedforward ≠ 0%nat ∧ num_heads ≠ 0%nat ∧
   (dim_feedforward mod num_heads = 0)%nat ∧ 0 <= p <= 1) ∧
  well_shaped net ∧
  in_features (embedding net) = input_dim ∧
  out_features (classifier net) = 2%nat ∧
  training net = true ∧
  ∃ layer, transformer net = replicate num_layers layer.
Proof.
  unfold __init__.
  intros (l & (Hd & Hh & Hmod & Hp & Hl)%new_encoder_layer_returns & [= <-])
         %result_bind_ok.
  split; [done|]. cbn. split_and!; [|done..|by exists l].
  unfold well_shaped. cbn.
  split_and!; try apply new_linear_ok; [|done]. by apply Forall_replicate.
Qed.

Lemma init_ok initial (input_dim num_heads dim_feedforward num_layers : nat) (p : R) :
  dim_feedforward ≠ 0%nat → num_heads ≠ 0%nat →
  (dim_feedforward mod num_heads = 0)%nat → 0 <= p <= 1 →
  ∃ net, __init__ initial input_dim num_heads dim_feedforward num_layers p = Ok net.
Proof.
  intros Hd Hh Hmod Hp. unfold __init__, new_encoder_layer.
  destruct (new_attention_ok initial "encoder_layer.self_attn"
              dim_feedforward num_heads p Hd Hh Hmod) as [a Ha].
  cbv [String.append] in Ha |- *. rewrite Ha. cbn [mbind result_bind].
  rewrite (proj2 (new_dropout_returns p p)) by done. cbn. eauto.
Qed.

(** X19. The constructor with a positive hidden width returns exactly
    when the number of heads is positive and divides the width and the
    dropout rate lies in [0, 1]. The module it returns is in training
    mode, takes rows of [input_dim] features, ends in a classifier with
    two outputs, and its [num_layers] encoder layers start as copies of
    one layer. *)
Theorem constructor_returns_iff (initial : string → nat → nat → R)
    (input_dim num_heads dim_feedforward num_layers : nat) (p : R) :
  dim_feedforward ≠ 0%nat →
  ((∃ net, __init__ initial input_dim num_heads dim_feedforward num_layers p = Ok net)
   ↔ num_heads ≠ 0%nat ∧ (dim_feedforward mod num_heads = 0)%nat ∧ 0 <= p <= 1) ∧
  (∀ net, __init__ initial input_dim num_heads dim_feedforward num_layers p = Ok net →
     training net = true ∧
     in_features (embedding net) = input_dim ∧
     out_features (classifier net) = 2%nat ∧
     ∃ layer, transformer net = replicate num_layers layer).
Proof.
  intros Hd. split.
  - split.
    + intros [net (Hok & _)%init_returns]. tauto.
    + intros (Hh & Hmod & Hp). by apply init_ok.
  - intros net (_ & _ & ? & ? & ? & ?)%init_returns. done.
Qed.

Lemma constructor_returns_iff_witness :
  128%nat ≠ 0%nat ∧
  ∃ net, __init__ (λ _ _ _, 0) 8 4 128 2 (1 / 10) = Ok net.
Proof.
  assert (128 ≠ 0)%nat as H by lia.
  split; [exact H|].
  apply (proj1 (constructor_returns_iff (λ _ _ _, 0) 8 4 128 2 (1 / 10) H)).
  split_and!; [lia|reflexivity|lra|lra].
Defined.

Lemma well_shaped_set_training mode net : well_shaped net → well_shaped (set_training mode net).
Proof. done. Qed.

(** X20. A module the constructor returned, with at least one encoder
    layer, applied in either mode to a batch of [n] sequences of [s ≥ 1]
    rows of [input_dim] features returns, whatever the parameter values
    and the generator state, a batch of [n] rows of two logits. *)
Theorem forward_of_sequences_returns_logit_pairs (initial : string → nat → nat → R)
    (input_dim num_heads dim_feedforward num_layers : nat) (p : R)
    (net : ChurnTransformer) (c : list (list (list R))) (n s : nat)
    (mode : bool) (g : rng) :
  __init__ initial input_dim num_heads dim_feedforward num_layers p = Ok net →
  (1 ≤ num_layers)%nat → (1 ≤ s)%nat →
  dims c = cube n s input_dim →
  ∃ m g', forward (set_training mode net) (T3 c) g = Ok (T2 m, g') ∧
    is_batch n 2 (T2 m).
Proof.
  intros (_ & Hnet & Hin & Hout & _)%init_returns _ Hs Hc.
  destruct (forward_well_shaped (set_training mode net) c n s g) as (m & g' & Hm & Hdm).
  - by apply well_shaped_set_training.
  - done.
  - cbn. by rewrite Hin.
  - exists m, g'. split; [done|]. cbn in Hdm. rewrite Hout in Hdm. split.
    + apply (f_equal length) in Hdm. by rewrite length_map, length_replicate in Hdm.
    + apply Forall_forall. intros r Hr.
      assert (length r ∈ map length m) as Hin' by (apply list_elem_of_fmap; eauto).
      rewrite Hdm in Hin'. by apply elem_of_replicate in Hin' as [-> _].
Qed.

Lemma forward_of_sequences_returns_logit_pairs_witness :
  ∃ net, __init__ (λ _ _ _, 0) 1 1 2 1 (1 / 10) = Ok net ∧
    (1 ≤ 1)%nat ∧ dims [[[1]]; [[1]]] = cube 2 1 1 ∧
    ∃ m g', forward (set_training true net) (T3 [[[1]]; [[1]]]) (λ _, true) = Ok (T2 m, g')
            ∧ is_batch 2 2 (T2 m).
Proof.
  destruct (init_ok (λ _ _ _, 0) 1 1 2 1 (1 / 10)) as [net Hnet];
    [lia|lia|reflexivity|lra|].
  assert (1 ≤ 1)%nat as H1 by lia.
  assert (dims [[[1]]; [[1]]] = cube 2 1 1) as Hc by reflexivity.
  exists net. split_and!; [exact Hnet|exact H1|exact Hc|].
  exact (forward_of_sequences_returns_logit_pairs _ _ _ _ _ _ net _ 2 1 true (λ _, true)
           Hnet H1 H1 Hc).
Defined.

(** *** Inputs [forward] refuses *)

Lemma mapM_raises {A B} (f : A → result B) (l : list A) (e : exn) :
  (∀ x e', f x = Raise e' → e' = e) →
  (∃ x, x ∈ l ∧ ∃ e', f x = Raise e') →
  mapM f l = Raise e.
Proof.
  intros Hf. induction l as [|x l IH]; intros (x0 & Hin & e' & Hx0).
  - by apply elem_of_nil in Hin.
  - cbn [mapM]. destruct (f x) as [y|e1] eqn:Hx.
    + cbn. rewrite IH; [done|]. apply elem_of_cons in Hin as [->|Hin]; [congruence|eauto].
    + cbn. f_equal. by eapply Hf.
Qed.

Lemma linear_vec_raises (l : Linear) (x : list R) e :
  linear_vec l x = Raise e → e = RuntimeError.
Proof. unfold linear_vec. destruct (Nat.eqb _ _); [done|]. by intros [= <-]. Qed.

(** X21. Inputs [forward] refuses: a single feature vector (rank one)
    always raises, at the latest in the encoder or the pooling, and a
    batch or a batch of sequences with a row whose width is not the input
    width of the embedding raises [RuntimeError]. *)
Theorem forward_refuses (net : ChurnTransformer) (g : rng) :
  (∀ v, raises (forward net (T1 v) g)) ∧
  (∀ m, (∃ r, r ∈ m ∧ length r ≠ in_features (embedding net)) →
     forward net (T2 m) g = Raise RuntimeError) ∧
  (∀ c, (∃ q r, q ∈ c ∧ r ∈ q ∧ length r ≠ in_features (embedding net)) →
     forward net (T3 c) g = Raise RuntimeError).
Proof.
  assert (∀ r, length r ≠ in_features (embedding net) →
            ∃ e, linear_vec (embedding net) r = Raise e) as Hrow.
  { intros r Hr. unfold linear_vec.
    destruct (Nat.eqb_spec (length r) (in_features (embedding net))); [done|eauto]. }
  split_and!.
  - intros v. unfold forward, raises. cbn [linear].
    destruct (linear_vec (embedding net) v) as [y|e]; [|by exists e].
    cbn. unfold mbind, gen_bind. cbn.
    destruct (transformer net); cbn; eauto.
  - intros m (r & Hin & Hr). unfold forward. cbn [linear].
    rewrite (mapM_raises _ m RuntimeError); [done|apply linear_vec_raises|].
    exists r. split; [done|]. by apply Hrow.
  - intros c (q & r & Hq & Hin & Hr). unfold forward. cbn [linear].
    rewrite (mapM_raises _ c RuntimeError); [done| |].
    + intros q' e' Hq'. destruct (mapM (linear_vec (embedding net)) q') as [?|e1] eqn:E;
        [done|]. injection Hq' as <-. revert E. clear.
      induction q' as [|r q' IH]; [done|]. cbn [mapM].
      destruct (linear_vec (embedding net) r) as [y|e2] eqn:Er.
      * cbn. destruct (mapM (linear_vec (embedding net)) q') as [?|e3]; [done|].
        cbn. intros [= <-]. by apply IH.
      * cbn. intros [= <-]. by eapply linear_vec_raises.
    + exists q. split; [done|]. exists RuntimeError.
      apply mapM_raises; [apply linear_vec_raises|]. exists r. split; [done|]. by apply Hrow.
Qed.

(** *** The pooling *)

Lemma mean_singleton (x : R) : mean [x] = x.
Proof. unfold mean. cbn. field. Qed.

(** X22. Over a sequence axis of length one the pooling [mean(dim=1)]
    is the identity: the pooled batch holds, for every sequence, its one
    row unchanged. *)
Theorem pooling_a_sequence_of_one_row (c : list (list (list R))) :
  Forall (λ q, length q = 1%nat) c →
  mean_dim1 (T3 c) = Ok (T2 (map (hd []) c)).
Proof.
  intros Hall. cbn [mean_dim1]. do 2 f_equal.
  apply map_ext_Forall. eapply Forall_impl; [exact Hall|].
  intros q Hq. cbn beta. destruct q as [|r [|? ?]]; try done. cbn [hd map].
  clear. apply nth_ext with 0 0.
  - by rewrite length_map, length_seq.
  - intros j. rewrite length_map, length_seq. intros Hj.
    rewrite (nth_indep _ 0 (mean [nth 0 r 0])) by (by rewrite length_map, length_seq).
    rewrite (map_nth (λ j, mean [nth j r 0]) (seq 0 (length r)) 0%nat j).
    rewrite seq_nth by done. apply mean_singleton.
Qed.

Lemma pooling_a_sequence_of_one_row_witness :
  Forall (λ q : list (list R), length q = 1%nat) [[[1; 2]]; [[3; 4]]] ∧
  mean_dim1 (T3 [[[1; 2]]; [[3; 4]]]) = Ok (T2 [[1; 2]; [3; 4]]).
Proof.
  assert (Forall (λ q : list (list R), length q = 1%nat) [[[1; 2]]; [[3; 4]]]) as H
    by (by repeat constructor).
  split; [exact H|].
  exact (pooling_a_sequence_of_one_row [[[1; 2]]; [[3; 4]]] H).
Defined.

End ShapeFacts.
